(** * Scanzy: the theme catalogue, its colour utilities and the theme resolver

    A shallow embedding of [constants/Colors.ts] (the two themes and
    [ThemeUtils]) and of [contexts/ThemeContext.tsx] (the [ThemeProvider]
    component), followed by the properties proved about them.

    JavaScript numbers are IEEE 754 binary64 values: they are embedded as
    Rocq's primitive [float]s, so [+], [*], [/] and the comparisons are the
    very operations the program runs.  Numbers that the program only uses
    as integers (colour channels, the result of [Math.round]) are embedded
    as [Z] inside the type [JS.num]. *)

From Stdlib Require Import ZArith List String Ascii Bool Lia Floats.
Import ListNotations.

Set Warnings "-inexact-float,-register-all".
Local Open Scope string_scope.
Local Open Scope Z_scope.

(* ================================================================== *)
(** * Part I: the embedding *)
(* ================================================================== *)

(** ** The JavaScript platform: values, strings and numbers *)

Module JS.

(** Values as [JSON.parse] builds them, and [undefined]. An object keeps
    its properties in source order; a later duplicate shadows an earlier
    one. *)
Inductive value : Type :=
| undefined
| null
| boolean (b : bool)
| number (x : float)
| str (s : string)
| array (items : list value)
| object (props : list (string * value)).

(** [ToBoolean], the truthiness used by [!v] and [v ? a : b]. *)
Definition ToBoolean (v : value) : bool :=
  match v with
  | undefined | null => false
  | boolean b => b
  | number x => negb (PrimFloat.is_zero x || PrimFloat.is_nan x)
  | str s => negb (s =? "")%string
  | array _ | object _ => true
  end.

Fixpoint lookup_last (key : string) (props : list (string * value)) : value :=
  match props with
  | [] => undefined
  | (k, v) :: rest =>
      let later := lookup_last key rest in
      if existsb (fun kv => fst kv =? key)%string rest then later
      else if (k =? key)%string then v else undefined
  end.

(** The property read [v.key], for a key that no prototype defines (such
    as [isDark]): [None] is the [TypeError] thrown on [null] and
    [undefined]. *)
Definition getProp (v : value) (key : string) : option value :=
  match v with
  | undefined | null => None
  | object props => Some (lookup_last key props)
  | boolean _ | number _ | str _ | array _ => Some undefined
  end.

(** *** Strings *)

(** [s.slice(n)] for [n >= 0]. *)
Fixpoint slice (n : nat) (s : string) : string :=
  match n, s with
  | O, _ => s
  | S _, EmptyString => EmptyString
  | S n', String _ rest => slice n' rest
  end.

Definition ascii_in (lo hi : Z) (c : ascii) : bool :=
  let n := Z.of_nat (nat_of_ascii c) in (lo <=? n) && (n <=? hi).

Definition upper_char (c : ascii) : ascii :=
  if ascii_in 97 122 c then ascii_of_nat (nat_of_ascii c - 32)%nat else c.

Definition lower_char (c : ascii) : ascii :=
  if ascii_in 65 90 c then ascii_of_nat (nat_of_ascii c + 32)%nat else c.

Fixpoint map_string (f : ascii -> ascii) (s : string) : string :=
  match s with
  | EmptyString => EmptyString
  | String c rest => String (f c) (map_string f rest)
  end.

Definition toUpperCase : string -> string := map_string upper_char.
Definition toLowerCase : string -> string := map_string lower_char.

Fixpoint repeat_char (c : ascii) (n : nat) : string :=
  match n with
  | O => EmptyString
  | S n' => String c (repeat_char c n')
  end.

(** [s.padStart(len, c)] with a one-character filler. *)
Definition padStart (len : nat) (c : ascii) (s : string) : string :=
  (repeat_char c (len - String.length s) ++ s)%string.

(** *** Numbers on the integer paths *)

(** A JavaScript number that is [NaN], an infinity, or an integer.
    [Int z] stands for the double nearest to [z], which is [z] itself
    whenever [|z| <= 2^53]; every integer the colour utilities build from
    a [#RRGGBB] colour is far below that. *)
Inductive num : Type :=
| NaN
| Inf (negative : bool)
| Int (z : Z).

Definition add (a b : num) : num :=
  match a, b with
  | NaN, _ | _, NaN => NaN
  | Inf s, Inf t => if Bool.eqb s t then Inf s else NaN
  | Inf s, Int _ | Int _, Inf s => Inf s
  | Int x, Int y => Int (x + y)
  end.

Definition mul (a b : num) : num :=
  match a, b with
  | NaN, _ | _, NaN => NaN
  | Inf s, Inf t => Inf (xorb s t)
  | Inf s, Int z | Int z, Inf s =>
      if z =? 0 then NaN else Inf (xorb s (z <? 0))
  | Int x, Int y => Int (x * y)
  end.

(** [a < b] *)
Definition lt (a b : num) : bool :=
  match a, b with
  | NaN, _ | _, NaN => false
  | Inf s, Inf t => s && negb t
  | Inf s, Int _ => s
  | Int _, Inf t => negb t
  | Int x, Int y => x <? y
  end.

(** [ToInt32]: what the bitwise operators see of a number. *)
Definition ToInt32 (a : num) : Z :=
  match a with
  | NaN | Inf _ => 0
  | Int z => (z + 2147483648) mod 4294967296 - 2147483648
  end.

(** [a >> k] *)
Definition sar (a : num) (k : Z) : Z := Z.shiftr (ToInt32 a) (k mod 32).

(** [a & b] *)
Definition band (a b : num) : Z := Z.land (ToInt32 a) (ToInt32 b).

(** *** Hexadecimal text *)

Definition hex_digit_value (c : ascii) : option Z :=
  let n := Z.of_nat (nat_of_ascii c) in
  if ascii_in 48 57 c then Some (n - 48)
  else if ascii_in 97 102 c then Some (n - 87)
  else if ascii_in 65 70 c then Some (n - 55)
  else None.

Definition is_whitespace (c : ascii) : bool :=
  let n := Z.of_nat (nat_of_ascii c) in
  (n =? 32) || ((9 <=? n) && (n <=? 13)).

Fixpoint trim_start (s : string) : string :=
  match s with
  | String c rest => if is_whitespace c then trim_start rest else s
  | EmptyString => s
  end.

(** The longest prefix of hexadecimal digits, read most significant
    first: [None] when there is no digit. *)
Fixpoint hex_prefix (acc : option Z) (s : string) : option Z :=
  match s with
  | EmptyString => acc
  | String c rest =>
      match hex_digit_value c with
      | Some d =>
          hex_prefix (Some (16 * match acc with Some a => a | None => 0 end + d)) rest
      | None => acc
      end
  end.

Definition strip_0x (s : string) : string :=
  match s with
  | String "0" (String c rest) =>
      if (c =? "x")%char || (c =? "X")%char then rest else s
  | _ => s
  end.

(** [parseInt(s, 16)]: leading white space, a sign and a [0x] prefix are
    skipped, then the longest run of hexadecimal digits is read; no digit
    gives [NaN]. *)
Definition parseInt16 (s : string) : num :=
  let s := trim_start s in
  let '(negative, s) :=
    match s with
    | String "-" rest => (true, rest)
    | String "+" rest => (false, rest)
    | _ => (false, s)
    end in
  match hex_prefix None (strip_0x s) with
  | None => NaN
  | Some z => Int (if negative then - z else z)
  end.

Definition hex_digit_char (d : Z) : ascii :=
  ascii_of_nat (Z.to_nat (if d <? 10 then 48 + d else 87 + d)).

(** The hexadecimal digits of a non-negative number, least significant
    first into [tail]; the fuel bounds the number of digits. *)
Fixpoint hex_digits_fuel (fuel : nat) (n : Z) (tail : string) : string :=
  match fuel with
  | O => tail
  | S fuel' =>
      let tail' := String (hex_digit_char (n mod 16)) tail in
      if n <? 16 then tail' else hex_digits_fuel fuel' (n / 16) tail'
  end.

Definition hex_digits (n : Z) : string :=
  hex_digits_fuel (S (Z.to_nat (Z.log2 n))) n EmptyString.

(** [n.toString(16)] for a number on the integer paths. *)
Definition toString16 (a : num) : string :=
  match a with
  | NaN => "NaN"
  | Inf false => "Infinity"
  | Inf true => "-Infinity"
  | Int z => if z <? 0 then String "-" (hex_digits (- z)) else hex_digits z
  end.

(** *** Floating-point helpers *)

(** The double of a small integer ([|z| < 2^53], so the conversion is
    exact). *)
Definition float_of_Z (z : Z) : float :=
  if z <? 0 then PrimFloat.opp (PrimFloat.of_uint63 (Uint63.of_Z (- z)))
  else PrimFloat.of_uint63 (Uint63.of_Z z).

(** [Math.round(x)]: the integer nearest to [x], ties going towards
    [+Infinity]; computed exactly on the mantissa and exponent of [x]. *)
Definition Math_round (x : float) : num :=
  match Prim2SF x with
  | S754_nan => NaN
  | S754_infinity s => Inf s
  | S754_zero _ => Int 0
  | S754_finite s m e =>
      let sm := if s then Z.neg m else Z.pos m in
      if 0 <=? e then Int (sm * 2 ^ e)
      else Int ((2 * sm + 2 ^ (- e)) / 2 ^ (1 - e))
  end.

(** [Math.max(x, y)] and [Math.min(x, y)]: [NaN] is contagious and [-0]
    is below [+0]. *)
Definition Math_max (x y : float) : float :=
  if PrimFloat.is_nan x || PrimFloat.is_nan y then PrimFloat.nan
  else if PrimFloat.ltb x y then y
  else if PrimFloat.ltb y x then x
  else if PrimFloat.get_sign x then y else x.

Definition Math_min (x y : float) : float :=
  if PrimFloat.is_nan x || PrimFloat.is_nan y then PrimFloat.nan
  else if PrimFloat.ltb x y then x
  else if PrimFloat.ltb y x then y
  else if PrimFloat.get_sign x then x else y.

End JS.

(** ** A reference for [Math.pow(x, 2.4)]

    The language standard asks of [Math.pow] only an approximation.
    What the properties below ask of it is stated against the exact
    power: for a positive finite double [x], [x^2.4 = x^(12/5)], so a
    double [y] compares with [x^2.4] as [y^5] compares with [x^12], and
    that is a comparison of integers. *)

Module MathPow.

(** The exact value [m * 2^e] of a positive finite double. *)
Definition dyadic (x : float) : option (Z * Z) :=
  match Prim2SF x with
  | S754_finite false m e => Some (Z.pos m, e)
  | _ => None
  end.

(** [a * 2^ea ?= b * 2^eb] *)
Definition compare_dyadic (a ea b eb : Z) : comparison :=
  let e := Z.min ea eb in
  Z.compare (Z.shiftl a (ea - e)) (Z.shiftl b (eb - e)).

(** [y ?= x^2.4], decided as [y^5 ?= x^12]. *)
Definition compare_with_power (y x : float) : option comparison :=
  match dyadic y, dyadic x with
  | Some (my, ey), Some (mx, ex) =>
      Some (compare_dyadic (my ^ 5) (5 * ey) (mx ^ 12) (12 * ex))
  | _, _ => None
  end.

(** [y] is the largest double not above [x^2.4]. *)
Definition is_floor_of_power (y x : float) : bool :=
  match compare_with_power y x, compare_with_power (next_up y) x with
  | Some (Lt | Eq), Some Gt => true
  | _, _ => false
  end.

(** [y] is [x^2.4] exactly. *)
Definition is_exact_power (y x : float) : bool :=
  match compare_with_power y x with
  | Some Eq => true
  | _ => false
  end.

(** An approximate fifth root, by Newton's iteration. *)
Fixpoint fifth_root (steps : nat) (x t : float) : float :=
  match steps with
  | O => t
  | S k =>
      let t4 := ((t * t) * (t * t))%float in
      fifth_root k x ((4 * t + x / t4) / 5)%float
  end.

(** An approximation of [x^2.4 = (x * x^(1/5))^2], good to a few units
    in the last place for the bases the luminance uses. *)
Definition approx_power (x : float) : float :=
  let r := (x * fifth_root 64 x 1)%float in (r * r)%float.

Fixpoint walk (step : float -> float) (n : nat) (y : float) : list float :=
  match n with
  | O => []
  | S k => y :: walk step k (step y)
  end.

(** The largest double not above [x^2.4], looked for among the doubles
    next to the approximation; [None] when it is not among them. *)
Definition power_floor (x : float) : option float :=
  let y0 := approx_power x in
  find (fun y => is_floor_of_power y x)
       (walk next_down 8 y0 ++ walk next_up 8 (next_up y0))%list.

(** A [Math.pow] that is off by less than one unit in the last place:
    it returns the largest double not above the exact power or the next
    double up, and the exact power itself when that is a double. *)
Definition faithful (Math_pow : float -> float -> float) : Prop :=
  forall x y,
    power_floor x = Some y ->
    Math_pow x 2.4%float = y \/
    (is_exact_power y x = false /\ Math_pow x 2.4%float = next_up y).

End MathPow.

(** ** [constants/Colors.ts] *)

Module Colors.

Record TextStyle : Type := {
  fontSize : Z;
  fontWeight : string;
  lineHeight : Z
}.

Record ThemeColors : Type := {
  primary : string;
  accent : string;
  background : string;
  surface : string;
  text : string;
  textSecondary : string;
  border : string;
  success : string;
  warning : string;
  error : string;
  tint : string;
  icon : string;
  tabIconDefault : string;
  tabIconSelected : string
}.

Record Spacing : Type := {
  spacing_xs : Z; spacing_sm : Z; spacing_md : Z;
  spacing_lg : Z; spacing_xl : Z; spacing_xxl : Z
}.

Record BorderRadius : Type := {
  radius_sm : Z; radius_md : Z; radius_lg : Z; radius_xl : Z
}.

Record Typography : Type := {
  h1 : TextStyle;
  h2 : TextStyle;
  body : TextStyle;
  caption : TextStyle;
  button : TextStyle
}.

Record ScanzyTheme : Type := {
  colors : ThemeColors;
  spacing : Spacing;
  borderRadius : BorderRadius;
  typography : Typography
}.

Definition lightTheme : ScanzyTheme := {|
  colors := {|
    primary := "#3F51B5";
    accent := "#00695C";
    background := "#F3F7FA";
    surface := "#FFFFFF";
    text := "#1A1A1A";
    textSecondary := "#666666";
    border := "#E0E0E0";
    success := "#4CAF50";
    warning := "#FF9800";
    error := "#F44336";
    tint := "#3F51B5";
    icon := "#666666";
    tabIconDefault := "#666666";
    tabIconSelected := "#3F51B5"
  |};
  spacing := {|
    spacing_xs := 4; spacing_sm := 8; spacing_md := 16;
    spacing_lg := 24; spacing_xl := 32; spacing_xxl := 48
  |};
  borderRadius := {|
    radius_sm := 8; radius_md := 12; radius_lg := 16; radius_xl := 24
  |};
  typography := {|
    h1 := {| fontSize := 32; fontWeight := "bold"; lineHeight := 40 |};
    h2 := {| fontSize := 24; fontWeight := "600"; lineHeight := 32 |};
    body := {| fontSize := 16; fontWeight := "normal"; lineHeight := 24 |};
    caption := {| fontSize := 12; fontWeight := "normal"; lineHeight := 16 |};
    button := {| fontSize := 16; fontWeight := "600"; lineHeight := 20 |}
  |}
|}.

Definition darkTheme : ScanzyTheme := {|
  colors := {|
    primary := "#7986CB";
    accent := "#64FFDA";
    background := "#121212";
    surface := "#1E1E1E";
    text := "#FFFFFF";
    textSecondary := "#B0B0B0";
    border := "#333333";
    success := "#4CAF50";
    warning := "#FF9800";
    error := "#F44336";
    tint := "#FFFFFF";
    icon := "#B0B0B0";
    tabIconDefault := "#B0B0B0";
    tabIconSelected := "#FFFFFF"
  |};
  spacing := {|
    spacing_xs := 4; spacing_sm := 8; spacing_md := 16;
    spacing_lg := 24; spacing_xl := 32; spacing_xxl := 48
  |};
  borderRadius := {|
    radius_sm := 8; radius_md := 12; radius_lg := 16; radius_xl := 24
  |};
  typography := {|
    h1 := {| fontSize := 32; fontWeight := "bold"; lineHeight := 40 |};
    h2 := {| fontSize := 24; fontWeight := "600"; lineHeight := 32 |};
    body := {| fontSize := 16; fontWeight := "normal"; lineHeight := 24 |};
    caption := {| fontSize := 12; fontWeight := "normal"; lineHeight := 16 |};
    button := {| fontSize := 16; fontWeight := "600"; lineHeight := 20 |}
  |}
|}.

(** *** [ThemeUtils] *)

Module ThemeUtils.

Section WithMathPow.

(** [Math.pow] is the platform's: the language standard leaves its
    result "implementation-approximated", so it is a parameter of the
    functions that call it. *)
Variable Math_pow : float -> float -> float.

(** The per-channel map of [getLuminance]'s [.map(c => ...)]. *)
Definition linearize (c : float) : float :=
  let c := (c / 255)%float in
  if (c <=? 0.03928)%float then (c / 12.92)%float
  else Math_pow ((c + 0.055) / 1.055)%float 2.4%float.

Definition getLuminance (hex : string) : float :=
  let rgb := JS.parseInt16 (JS.slice 1 hex) in
  let r := JS.band (JS.Int (JS.sar rgb 16)) (JS.Int 255) in
  let g := JS.band (JS.Int (JS.sar rgb 8)) (JS.Int 255) in
  let b := JS.band (JS.Int (JS.sar rgb 0)) (JS.Int 255) in
  let rs := linearize (JS.float_of_Z r) in
  let gs := linearize (JS.float_of_Z g) in
  let bs := linearize (JS.float_of_Z b) in
  (0.2126 * rs + 0.7152 * gs + 0.0722 * bs)%float.

Definition getContrastRatio (color1 color2 : string) : float :=
  let lum1 := getLuminance color1 in
  let lum2 := getLuminance color2 in
  let brightest := JS.Math_max lum1 lum2 in
  let darkest := JS.Math_min lum1 lum2 in
  ((brightest + 0.05) / (darkest + 0.05))%float.

Definition meetsAccessibilityStandards (foreground background : string) : bool :=
  (4.5 <=? getContrastRatio foreground background)%float.

Record Validation : Type := {
  textOnBackground : bool;
  textOnSurface : bool;
  primaryOnBackground : bool;
  accentOnBackground : bool;
  textSecondaryOnBackground : bool;
  allValid : bool
}.

Definition validateThemeAccessibility (theme : ScanzyTheme) : Validation :=
  let c := theme.(colors) in
  let r1 := meetsAccessibilityStandards c.(text) c.(background) in
  let r2 := meetsAccessibilityStandards c.(text) c.(surface) in
  let r3 := meetsAccessibilityStandards c.(primary) c.(background) in
  let r4 := meetsAccessibilityStandards c.(accent) c.(background) in
  let r5 := meetsAccessibilityStandards c.(textSecondary) c.(background) in
  {| textOnBackground := r1;
     textOnSurface := r2;
     primaryOnBackground := r3;
     accentOnBackground := r4;
     textSecondaryOnBackground := r5;
     allValid := forallb (fun b : bool => b) [r1; r2; r3; r4; r5] |}.

End WithMathPow.

Definition addAlpha (hex : string) (alpha : float) : string :=
  let alphaHex :=
    JS.toUpperCase
      (JS.padStart 2 "0" (JS.toString16 (JS.Math_round (alpha * 255)%float))) in
  (hex ++ alphaHex)%string.

(** One channel's [X < 255 ? X < 1 ? 0 : X : 255]. *)
Definition clamp (x : JS.num) : JS.num :=
  if JS.lt x (JS.Int 255) then (if JS.lt x (JS.Int 1) then JS.Int 0 else x)
  else JS.Int 255.

Definition adjustBrightness (hex : string) (percent : float) : string :=
  let num := JS.parseInt16 (JS.slice 1 hex) in
  let amt := JS.Math_round (2.55 * percent)%float in
  let R := JS.add (JS.Int (JS.sar num 16)) amt in
  let G := JS.add (JS.Int (JS.band (JS.Int (JS.sar num 8)) (JS.Int 255))) amt in
  let B := JS.add (JS.Int (JS.band num (JS.Int 255))) amt in
  ("#" ++
   JS.slice 1
     (JS.toString16
        (JS.add
           (JS.add
              (JS.add (JS.Int 16777216) (JS.mul (clamp R) (JS.Int 65536)))
              (JS.mul (clamp G) (JS.Int 256)))
           (clamp B))))%string.

End ThemeUtils.

End Colors.

(** ** [contexts/ThemeContext.tsx] *)

Module ThemeContext.

Import Colors.

Definition THEME_STORAGE_KEY : string := "@scanzy_theme_preference".

(** What [useColorScheme()] reports. *)
Inductive ColorSchemeName : Type :=
| scheme_light
| scheme_dark
| scheme_none.      (* null or undefined *)

(** [systemColorScheme === 'dark'] *)
Definition is_dark_scheme (s : ColorSchemeName) : bool :=
  match s with
  | scheme_dark => true
  | scheme_light | scheme_none => false
  end.

(** A string kept by [AsyncStorage], seen through the two things the
    component does with it: the truthiness test [if (storedPreference)]
    and [JSON.parse]. *)
Inductive text : Type :=
| empty_text                 (* the empty string: falsy, never parsed *)
| malformed                  (* non-empty; [JSON.parse] throws a SyntaxError *)
| json (v : JS.value).       (* non-empty; [JSON.parse] returns [v] *)

(** [JSON.stringify({isDark: darkMode, lastUpdated: new Date()})], where
    [now] is the ISO-8601 text [Date.prototype.toJSON] gives for the
    date. *)
Definition stringify_preference (darkMode : JS.value) (now : string) : text :=
  json (JS.object [("isDark", darkMode); ("lastUpdated", JS.str now)]).

(** [AsyncStorage]: a string per key. *)
Definition Storage : Type := string -> option text.

Definition setItem (key : string) (t : text) (st : Storage) : Storage :=
  fun k => if (k =? key)%string then Some t else st k.

(** How the promise of [AsyncStorage.getItem] settles. *)
Inductive read_outcome : Type :=
| read_rejected
| read_resolved (stored : option text).

(** What a piece of the component's code does, in program order. *)
Inductive effect : Type :=
| SetIsDark (v : JS.value)
| SetIsLoading (b : bool)
| Warn (message : string)
| GetItem (key : string)
| SetItem (key : string) (t : text).

Section Component.

(** [const systemColorScheme = useColorScheme()] as the closures of the
    mounting render captured it. *)
Variable systemColorScheme : ColorSchemeName.

Definition initial_isDark : JS.value :=
  JS.boolean (is_dark_scheme systemColorScheme).

(** [loadThemePreference] up to its [await]. *)
Definition loadThemePreference_start : list effect :=
  [GetItem THEME_STORAGE_KEY].

(** [loadThemePreference] from the [await] on: the [try] body, the
    [catch] and the [finally]. *)
Definition loadThemePreference_resume (r : read_outcome) : list effect :=
  let fallback :=
    [Warn "Failed to load theme preference:";
     SetIsDark (JS.boolean (is_dark_scheme systemColorScheme))] in
  let body :=
    match r with
    | read_rejected => fallback
    | read_resolved None | read_resolved (Some empty_text) =>
        [SetIsDark (JS.boolean (is_dark_scheme systemColorScheme))]
    | read_resolved (Some malformed) => fallback
    | read_resolved (Some (json preference)) =>
        match JS.getProp preference "isDark" with
        | Some v => [SetIsDark v]
        | None => fallback
        end
    end in
  (body ++ [SetIsLoading false])%list.

(** [saveThemePreference] up to its [await], and its [catch]. *)
Definition saveThemePreference_start (darkMode : JS.value) (now : string)
  : list effect :=
  [SetItem THEME_STORAGE_KEY (stringify_preference darkMode now)].

Definition saveThemePreference_resume (ok : bool) : list effect :=
  if ok then [] else [Warn "Failed to save theme preference:"].

(** [toggleTheme], closed over the [isDark] of the render that made it;
    [now] is the clock at the call. *)
Definition toggleTheme (isDark : JS.value) (now : string) : list effect :=
  let newIsDark := JS.boolean (negb (JS.ToBoolean isDark)) in
  SetIsDark newIsDark :: saveThemePreference_start newIsDark now.

(** The context value one render exposes. *)
Record ThemeContextType : Type := {
  theme : ScanzyTheme;
  isDark : JS.value;
  toggle : string -> list effect;
  isLoading : bool
}.

Definition render (isDark : JS.value) (isLoading : bool) : ThemeContextType :=
  let theme := if JS.ToBoolean isDark then darkTheme else lightTheme in
  {| theme := theme;
     isDark := isDark;
     toggle := toggleTheme isDark;
     isLoading := isLoading |}.

(** *** The component in its environment *)

Inductive load_stage : Type :=
| load_not_started
| load_requested (key : string)        (* [getItem] is with the store *)
| load_settled (r : read_outcome)      (* the promise settled *)
| load_finished.                       (* [loadThemePreference] returned *)

Record world : Type := {
  st_isDark : JS.value;                (* [useState] *)
  st_isLoading : bool;                 (* [useState] *)
  stage : load_stage;
  disk : Storage;
  inflight : list (string * text);     (* [setItem] calls not yet settled *)
  console : list string
}.

Definition apply_effect (w : world) (e : effect) : world :=
  match e with
  | SetIsDark v =>
      {| st_isDark := v; st_isLoading := w.(st_isLoading); stage := w.(stage);
         disk := w.(disk); inflight := w.(inflight); console := w.(console) |}
  | SetIsLoading b =>
      {| st_isDark := w.(st_isDark); st_isLoading := b; stage := w.(stage);
         disk := w.(disk); inflight := w.(inflight); console := w.(console) |}
  | Warn m =>
      {| st_isDark := w.(st_isDark); st_isLoading := w.(st_isLoading);
         stage := w.(stage); disk := w.(disk); inflight := w.(inflight);
         console := (w.(console) ++ [m])%list |}
  | GetItem k =>
      {| st_isDark := w.(st_isDark); st_isLoading := w.(st_isLoading);
         stage := load_requested k; disk := w.(disk);
         inflight := w.(inflight); console := w.(console) |}
  | SetItem k t =>
      {| st_isDark := w.(st_isDark); st_isLoading := w.(st_isLoading);
         stage := w.(stage); disk := w.(disk);
         inflight := (w.(inflight) ++ [(k, t)])%list; console := w.(console) |}
  end.

Definition apply_effects (w : world) (es : list effect) : world :=
  fold_left apply_effect es w.

Definition set_stage (w : world) (s : load_stage) : world :=
  {| st_isDark := w.(st_isDark); st_isLoading := w.(st_isLoading); stage := s;
     disk := w.(disk); inflight := w.(inflight); console := w.(console) |}.

Definition settle_write (w : world) (i : nat) (ok : bool) : option world :=
  match nth_error w.(inflight) i with
  | None => None
  | Some (k, t) =>
      let rest := (firstn i w.(inflight) ++ skipn (S i) w.(inflight))%list in
      Some (apply_effects
              {| st_isDark := w.(st_isDark); st_isLoading := w.(st_isLoading);
                 stage := w.(stage);
                 disk := if ok then setItem k t w.(disk) else w.(disk);
                 inflight := rest; console := w.(console) |}
              (saveThemePreference_resume ok))
  end.

(** The first render and the mount effect [useEffect(() => {
    loadThemePreference(); }, [])]. *)
Definition mount (stored : Storage) : world :=
  apply_effects
    {| st_isDark := initial_isDark; st_isLoading := true;
       stage := load_not_started; disk := stored; inflight := [];
       console := [] |}
    loadThemePreference_start.

(** What the consumers see of a world. *)
Definition contextValue (w : world) : ThemeContextType :=
  render w.(st_isDark) w.(st_isLoading).

(** What can happen next. *)
Inductive event : Type :=
| StoreAnswersRead (ok : bool)         (* the [getItem] promise settles *)
| LoadResumes                          (* the code after the [await] runs *)
| ToggleTheme (now : string)           (* a consumer calls [toggleTheme()] *)
| WriteSettles (i : nat) (ok : bool).  (* a pending [setItem] lands or fails *)

(** One event; [None] when it cannot happen in [w]. A consumer calls the
    [toggleTheme] of the latest render. The store serves pending writes
    in any order. *)
Definition step (w : world) (ev : event) : option world :=
  match ev with
  | StoreAnswersRead ok =>
      match w.(stage) with
      | load_requested k =>
          Some (set_stage w
                  (load_settled
                     (if ok then read_resolved (w.(disk) k) else read_rejected)))
      | _ => None
      end
  | LoadResumes =>
      match w.(stage) with
      | load_settled r =>
          Some (apply_effects (set_stage w load_finished)
                  (loadThemePreference_resume r))
      | _ => None
      end
  | ToggleTheme now =>
      Some (apply_effects w ((contextValue w).(toggle) now))
  | WriteSettles i ok => settle_write w i ok
  end.

Fixpoint run (w : world) (evs : list event) : option world :=
  match evs with
  | [] => Some w
  | ev :: rest =>
      match step w ev with
      | Some w' => run w' rest
      | None => None
      end
  end.

(** The worlds a run passes through, the first one included. *)
Fixpoint trace (w : world) (evs : list event) : list world :=
  w :: match evs with
       | [] => []
       | ev :: rest =>
           match step w ev with
           | Some w' => trace w' rest
           | None => []
           end
       end.

End Component.

End ThemeContext.

(* ================================================================== *)
(** * Part II: properties *)
(* ================================================================== *)

(** ** The theme resolver *)

Module ResolverFacts.

Import Colors ThemeContext.

(** How often a list of flags changes value from one entry to the next. *)
Fixpoint changes (l : list bool) : nat :=
  match l with
  | a :: (b :: _) as rest => (if Bool.eqb a b then 0 else 1) + changes rest
  | _ => 0
  end%nat.

Definition is_finished (s : load_stage) : bool :=
  match s with load_finished => true | _ => false end.

Definition is_load_resume (ev : event) : bool :=
  match ev with LoadResumes => true | _ => false end.

Lemma apply_effects_app : forall es1 es2 w,
  apply_effects w (es1 ++ es2) = apply_effects (apply_effects w es1) es2.
Proof. intros. unfold apply_effects. apply fold_left_app. Qed.

Lemma lookup_last_absent : forall key props,
  existsb (fun kv => (fst kv =? key)%string) props = false ->
  JS.lookup_last key props = JS.undefined.
Proof.
  induction props as [|[k v] rest IH]; intros H; [reflexivity|].
  cbn in H. apply orb_false_iff in H as [Hk Hrest].
  cbn. rewrite Hrest, Hk. reflexivity.
Qed.

Lemma themes_differ : lightTheme <> darkTheme.
Proof. discriminate. Qed.

(** The body of [loadThemePreference] after the [await] always ends by
    clearing the loading flag, and touches neither the store nor the
    pending writes. *)
Lemma load_resume_effects : forall scheme r w,
  let w' := apply_effects w (loadThemePreference_resume scheme r) in
  st_isLoading w' = false /\ stage w' = stage w /\ disk w' = disk w /\
  inflight w' = inflight w.
Proof.
  intros scheme r w.
  destruct r as [|[[| |v]|]]; cbn; auto.
  destruct (JS.getProp v "isDark"); cbn; auto.
Qed.

Lemma settle_write_state : forall w i ok w',
  settle_write w i ok = Some w' ->
  st_isDark w' = st_isDark w /\ st_isLoading w' = st_isLoading w /\
  stage w' = stage w.
Proof.
  unfold settle_write. intros w i ok w' H.
  destruct (nth_error (inflight w) i) as [[k t]|]; [|discriminate].
  injection H as <-. destruct ok; cbn; auto.
Qed.

(** One event and the loading flag: only the resumption of the load
    changes it, it can only happen while the load is unfinished, and it
    finishes the load. *)
Lemma step_loading : forall scheme w ev w',
  step scheme w ev = Some w' ->
  if is_load_resume ev
  then is_finished (stage w) = false /\ is_finished (stage w') = true /\
       st_isLoading w' = false
  else is_finished (stage w') = is_finished (stage w) /\
       st_isLoading w' = st_isLoading w.
Proof.
  intros scheme w ev w' H. destruct ev as [ok| |now|i ok]; cbn in *.
  - destruct (stage w); try discriminate. injection H as <-. cbn. auto.
  - destruct (stage w) eqn:Hs; try discriminate. injection H as <-.
    pose proof (load_resume_effects scheme r (set_stage w load_finished))
      as (Hl & Hst & _).
    cbn in Hst. rewrite Hst. auto.
  - injection H as <-. cbn. auto.
  - apply settle_write_state in H as (_ & Hl & Hs). rewrite Hs, Hl. auto.
Qed.

Lemma trace_after_finish : forall scheme evs w w',
  is_finished (stage w) = true -> st_isLoading w = false ->
  run scheme w evs = Some w' ->
  map st_isLoading (trace scheme w evs) = repeat false (S (List.length evs)) /\
  existsb is_load_resume evs = false /\ st_isLoading w' = false.
Proof.
  induction evs as [|ev rest IH]; intros w w' Hf Hl Hrun; cbn in *.
  - injection Hrun as <-. rewrite Hl. auto.
  - destruct (step scheme w ev) as [w1|] eqn:Hstep; [|discriminate].
    pose proof (step_loading _ _ _ _ Hstep) as Hs.
    destruct (is_load_resume ev).
    + destruct Hs as (Hs & _). congruence.
    + destruct Hs as (Hs1 & Hs2).
      destruct (IH w1 w') as (IH1 & IH2 & IH3); try congruence.
      rewrite Hl. cbn in IH1. rewrite IH1. auto.
Qed.

Lemma trace_before_finish : forall scheme evs w w',
  is_finished (stage w) = false -> st_isLoading w = true ->
  run scheme w evs = Some w' ->
  exists before after,
    map st_isLoading (trace scheme w evs)
      = (repeat true (S before) ++ repeat false after)%list /\
    (before + after = List.length evs)%nat /\
    (if existsb is_load_resume evs
     then after <> O /\ st_isLoading w' = false
     else after = O /\ st_isLoading w' = true).
Proof.
  induction evs as [|ev rest IH]; intros w w' Hf Hl Hrun; cbn in *.
  - injection Hrun as <-. exists O, O. rewrite Hl. auto.
  - destruct (step scheme w ev) as [w1|] eqn:Hstep; [|discriminate].
    pose proof (step_loading _ _ _ _ Hstep) as Hs.
    destruct (is_load_resume ev); cbn.
    + destruct Hs as (_ & Hs1 & Hs2).
      destruct (trace_after_finish scheme rest w1 w' Hs1 Hs2 Hrun)
        as (T1 & T2 & T3).
      exists O, (S (List.length rest)). rewrite Hl, T1. cbn. auto.
    + destruct Hs as (Hs1 & Hs2).
      destruct (IH w1 w') as (before & after & T1 & T2 & T3); try congruence.
      exists (S before), after. rewrite Hl, T1. cbn. split; [reflexivity|].
      split; [lia|exact T3].
Qed.

Lemma changes_true_false : forall before after,
  changes (repeat true (S before) ++ repeat false after)
  = match after with O => O | S _ => 1%nat end.
Proof.
  induction before as [|n IH]; intros after.
  - destruct after as [|after]; [reflexivity|].
    cbn. induction after as [|m IHm]; [reflexivity|].
    cbn in *. exact IHm.
  - specialize (IH after). cbn in *. exact IH.
Qed.

(** C1. In every world a run from the mount passes through, the first
    (loading) one included, the theme handed to consumers is [darkTheme]
    when the exposed [isDark] is truthy and [lightTheme] otherwise: in
    particular [darkTheme] for [true] and [lightTheme] for [false]. The
    exposed [isDark] is the component state itself, and the theme is
    computed from it by each render, so the two cannot drift apart. *)
Theorem theme_follows_isDark : forall scheme stored evs,
  Forall
    (fun w =>
       let cv := contextValue w in
       isDark cv = st_isDark w /\
       theme cv = (if JS.ToBoolean (isDark cv) then darkTheme else lightTheme) /\
       (isDark cv = JS.boolean true -> theme cv = darkTheme) /\
       (isDark cv = JS.boolean false -> theme cv = lightTheme))
    (trace scheme (mount scheme stored) evs).
Proof.
  intros scheme stored evs. apply Forall_forall. intros w _.
  unfold contextValue, render. cbn.
  repeat split; intros ->; reflexivity.
Qed.

(** C3, as the specification states it, fails: with a dark platform
    scheme and the stored text [{}], the load leaves [isDark] undefined
    instead of the platform's [true]. *)
Lemma load_missing_isDark_not_a_parse_failure :
  ~ (forall scheme v w w',
        (forall b, JS.getProp v "isDark" <> Some (JS.boolean b)) ->
        stage w = load_settled (read_resolved (Some (json v))) ->
        step scheme w LoadResumes = Some w' ->
        st_isDark w' = initial_isDark scheme).
Proof.
  intros claim.
  pose (w := set_stage (mount scheme_dark (fun _ => None))
               (load_settled (read_resolved (Some (json (JS.object [])))))).
  assert (H : JS.undefined = JS.boolean true).
  { apply (claim scheme_dark (JS.object []) w
             (apply_effects (set_stage w load_finished)
                (loadThemePreference_resume scheme_dark
                   (read_resolved (Some (json (JS.object []))))))).
    - intros b. discriminate.
    - reflexivity.
    - reflexivity. }
  discriminate H.
Qed.

(** C3, amended. When the stored text is valid JSON, the load resumes
    by reading [preference.isDark]: only if that read throws (the JSON
    value [null]) is the platform-seeded value kept; otherwise [isDark]
    becomes whatever the read yields, which for an object without the
    field is [undefined], shown as the light theme. The loading flag is
    cleared in every case. *)
Theorem load_of_valid_json : forall scheme v w w',
  stage w = load_settled (read_resolved (Some (json v))) ->
  step scheme w LoadResumes = Some w' ->
  st_isLoading w' = false /\
  match JS.getProp v "isDark" with
  | None => (v = JS.null \/ v = JS.undefined) /\
            st_isDark w' = initial_isDark scheme
  | Some x => st_isDark w' = x
  end /\
  (forall props,
      v = JS.object props ->
      existsb (fun kv => (fst kv =? "isDark")%string) props = false ->
      st_isDark w' = JS.undefined /\ theme (contextValue w') = lightTheme).
Proof.
  intros scheme v w w' Hs Hstep. cbn in Hstep. rewrite Hs in Hstep.
  injection Hstep as <-.
  split; [apply load_resume_effects|].
  split.
  - unfold loadThemePreference_resume. destruct v; cbn; auto.
  - intros props -> Habsent.
    unfold loadThemePreference_resume, contextValue. cbn.
    rewrite (lookup_last_absent _ _ Habsent). cbn. auto.
Qed.

Lemma load_of_valid_json_witness :
  let w := set_stage (mount scheme_dark (fun _ => None))
             (load_settled (read_resolved (Some (json (JS.object []))))) in
  exists w',
    step scheme_dark w LoadResumes = Some w' /\
    st_isLoading w' = false /\ st_isDark w' = JS.undefined.
Proof.
  intros w.
  eexists. split; [reflexivity|].
  pose proof (load_of_valid_json scheme_dark (JS.object []) w _
                eq_refl eq_refl) as (Hl & Hd & _).
  split; [exact Hl | exact Hd].
Defined.

(** What holds of every world a run from the mount reaches: the load has
    been requested, and the loading flag is up exactly while the load is
    unfinished. *)
Definition consistent (w : world) : Prop :=
  st_isLoading w = negb (is_finished (stage w)) /\
  stage w <> load_not_started.

Lemma step_consistent : forall scheme w ev w',
  consistent w -> step scheme w ev = Some w' -> consistent w'.
Proof.
  intros scheme w ev w' (Hl & Hn) Hstep.
  pose proof (step_loading _ _ _ _ Hstep) as Hs.
  split.
  - destruct (is_load_resume ev).
    + destruct Hs as (_ & -> & ->). reflexivity.
    + destruct Hs as (-> & ->). exact Hl.
  - destruct ev as [ok| |now|i ok]; cbn in Hstep.
    + destruct (stage w); try discriminate. injection Hstep as <-.
      cbn. discriminate.
    + cbn in Hs. destruct Hs as (_ & Hs & _).
      destruct (stage w'); cbn in Hs; congruence.
    + injection Hstep as <-. exact Hn.
    + apply settle_write_state in Hstep as (_ & _ & ->). exact Hn.
Qed.

Lemma run_consistent : forall scheme evs w w',
  consistent w -> run scheme w evs = Some w' -> consistent w'.
Proof.
  induction evs as [|ev rest IH]; intros w w' Hc Hrun; cbn in Hrun.
  - injection Hrun as <-. exact Hc.
  - destruct (step scheme w ev) as [w1|] eqn:Hstep; [|discriminate].
    apply (IH w1 w'); [|exact Hrun].
    exact (step_consistent _ _ _ _ Hc Hstep).
Qed.

Lemma mount_consistent : forall scheme stored,
  consistent (mount scheme stored).
Proof. intros. split; [reflexivity|discriminate]. Qed.

Lemma read_can_settle : forall scheme w key ok,
  stage w = load_requested key ->
  exists w', step scheme w (StoreAnswersRead ok) = Some w' /\
             exists r, stage w' = load_settled r.
Proof.
  intros scheme w key ok Hs. unfold step. rewrite Hs.
  eexists. split; [reflexivity|]. eexists. reflexivity.
Qed.

Lemma load_can_resume : forall scheme w r,
  stage w = load_settled r ->
  exists w', step scheme w LoadResumes = Some w' /\ st_isLoading w' = false.
Proof.
  intros scheme w r Hs. unfold step. rewrite Hs.
  eexists. split; [reflexivity|]. apply load_resume_effects.
Qed.

(** C4. (1) When the read is rejected or finds no record, the load
    resumes by setting [isDark] to the platform seed,
    [systemColorScheme === 'dark'], which is [false] for [light] and for
    an absent scheme. (2) Along every run from the mount the loading
    flag reads [true] one or more times and then [false] from the moment
    the load resumes on: it changes exactly once in a run in which the
    load resumes, whatever the read's outcome, and never otherwise.
    (3) From every world a run reaches the load can still go on to
    finish. *)
Theorem load_fallback_and_loading_flag : forall scheme stored,
  initial_isDark scheme = JS.boolean (is_dark_scheme scheme) /\
  is_dark_scheme scheme_none = false /\
  (forall w w' r,
      stage w = load_settled r ->
      r = read_rejected \/ r = read_resolved None ->
      step scheme w LoadResumes = Some w' ->
      st_isDark w' = initial_isDark scheme /\ st_isLoading w' = false) /\
  (forall evs w,
      run scheme (mount scheme stored) evs = Some w ->
      let flags := map st_isLoading (trace scheme (mount scheme stored) evs) in
      exists before after,
        flags = (repeat true (S before) ++ repeat false after)%list /\
        if existsb is_load_resume evs
        then changes flags = 1%nat /\ after <> O /\ st_isLoading w = false
        else changes flags = O /\ after = O /\ st_isLoading w = true) /\
  (forall evs w,
      run scheme (mount scheme stored) evs = Some w ->
      exists more w',
        run scheme w more = Some w' /\ st_isLoading w' = false).
Proof.
  intros scheme stored.
  split; [reflexivity|]. split; [reflexivity|]. split; [|split].
  - intros w w' r Hs Hr Hstep. cbn in Hstep. rewrite Hs in Hstep.
    injection Hstep as <-.
    destruct Hr as [-> | ->]; cbn; auto.
  - intros evs w Hrun flags.
    destruct (trace_before_finish scheme evs (mount scheme stored) w
                eq_refl eq_refl Hrun) as (before & after & T1 & _ & T3).
    exists before, after. subst flags. rewrite T1, changes_true_false.
    split; [reflexivity|].
    destruct (existsb is_load_resume evs).
    + destruct T3 as (T3 & T4). destruct after; [congruence|auto].
    + destruct T3 as (-> & T4). auto.
  - intros evs w Hrun.
    destruct (run_consistent scheme evs _ w (mount_consistent scheme stored) Hrun)
      as (Hl & Hn).
    destruct (stage w) eqn:Hs.
    + congruence.
    + destruct (read_can_settle scheme w key true Hs) as (w1 & Hstep1 & r & Hs1).
      destruct (load_can_resume scheme w1 r Hs1) as (w2 & Hstep2 & Hl2).
      exists [StoreAnswersRead true; LoadResumes], w2.
      cbn [run]. rewrite Hstep1, Hstep2. auto.
    + destruct (load_can_resume scheme w r Hs) as (w2 & Hstep2 & Hl2).
      exists [LoadResumes], w2. cbn [run]. rewrite Hstep2. auto.
    + exists [], w. split; [reflexivity|exact Hl].
Qed.

Lemma settle_last_write : forall w l k t ok,
  inflight w = (l ++ [(k, t)])%list ->
  settle_write w (List.length l) ok
  = Some (apply_effects
            {| st_isDark := st_isDark w; st_isLoading := st_isLoading w;
               stage := stage w;
               disk := if ok then setItem k t (disk w) else disk w;
               inflight := l; console := console w |}
            (saveThemePreference_resume ok)).
Proof.
  intros w l k t ok Hw. unfold settle_write. rewrite Hw.
  rewrite nth_error_app2 by lia. rewrite Nat.sub_diag. cbn [nth_error].
  rewrite firstn_app, Nat.sub_diag, firstn_all, firstn_O, app_nil_r.
  rewrite skipn_app, skipn_all2 by (cbn; lia).
  replace (S (List.length l) - List.length l)%nat with 1%nat by lia.
  cbn [skipn app]. rewrite app_nil_r. reflexivity.
Qed.

(** C5. [toggleTheme] first sets [isDark] to the negation of the value
    its render saw and only then calls the store, with a fresh record
    [{isDark: newValue, lastUpdated: now}] under the fixed key. The step
    changes the state at once and leaves the store as it was, the write
    pending. When that write lands, the key holds the new record in
    place of whatever it held; when it fails, a warning is logged, the
    store is unchanged and [isDark] stays flipped. No settling write,
    of whatever toggle, touches [isDark]. *)
Theorem toggle_is_optimistic : forall scheme w now,
  let flipped := JS.boolean (negb (JS.ToBoolean (st_isDark w))) in
  let record :=
    json (JS.object [("isDark", flipped); ("lastUpdated", JS.str now)]) in
  toggle (contextValue w) now
    = [SetIsDark flipped; SetItem THEME_STORAGE_KEY record] /\
  (forall b, st_isDark w = JS.boolean b -> flipped = JS.boolean (negb b)) /\
  (exists w1,
     step scheme w (ToggleTheme now) = Some w1 /\
     st_isDark w1 = flipped /\
     isDark (contextValue w1) = flipped /\
     disk w1 = disk w /\
     inflight w1 = (inflight w ++ [(THEME_STORAGE_KEY, record)])%list /\
     forall ok, exists w2,
       step scheme w1 (WriteSettles (List.length (inflight w)) ok) = Some w2 /\
       st_isDark w2 = flipped /\
       inflight w2 = inflight w /\
       if ok
       then disk w2 THEME_STORAGE_KEY = Some record /\
            (forall k, (k =? THEME_STORAGE_KEY)%string = false ->
                       disk w2 k = disk w k) /\
            console w2 = console w
       else disk w2 = disk w /\
            console w2
              = (console w ++ ["Failed to save theme preference:"])%list) /\
  (forall w' i ok w'',
     step scheme w' (WriteSettles i ok) = Some w'' ->
     st_isDark w'' = st_isDark w').
Proof.
  intros scheme w now flipped record.
  split; [reflexivity|]. split.
  { intros b Hb. subst flipped. rewrite Hb. reflexivity. }
  split.
  - pose (w1 := {| st_isDark := flipped; st_isLoading := st_isLoading w;
                   stage := stage w; disk := disk w;
                   inflight := (inflight w ++ [(THEME_STORAGE_KEY, record)])%list;
                   console := console w |}).
    exists w1. repeat (split; [reflexivity|]).
    intros ok. cbn [step].
    rewrite (settle_last_write w1 (inflight w) THEME_STORAGE_KEY record ok eq_refl).
    eexists. split; [reflexivity|].
    destruct ok; cbn; repeat split; auto.
    intros k Hk. unfold setItem. rewrite Hk. reflexivity.
  - intros w' i ok w'' H. cbn in H.
    apply settle_write_state in H. tauto.
Qed.

(** C10. The store holds a record whose [isDark] reads as [x]; the
    consumer toggles while the load is still pending, and the toggle's
    write lands after the read was answered. Then, whichever of the
    toggle and the answer came first, the world just before the load
    resumes shows the toggled value in memory and in the store, and the
    load's resumption replaces the in-memory value by the [x] that was
    read, while the store keeps the toggled record. *)
Theorem load_overrides_early_toggle : forall scheme stored v x now evs,
  stored THEME_STORAGE_KEY = Some (json v) ->
  JS.getProp v "isDark" = Some x ->
  evs = [StoreAnswersRead true; ToggleTheme now; WriteSettles 0 true] \/
  evs = [ToggleTheme now; StoreAnswersRead true; WriteSettles 0 true] ->
  let toggled := JS.boolean (negb (is_dark_scheme scheme)) in
  exists w1 w2,
    run scheme (mount scheme stored) evs = Some w1 /\
    st_isDark w1 = toggled /\
    st_isLoading w1 = true /\
    disk w1 THEME_STORAGE_KEY = Some (stringify_preference toggled now) /\
    run scheme (mount scheme stored) (evs ++ [LoadResumes]) = Some w2 /\
    st_isDark w2 = x /\
    st_isLoading w2 = false /\
    disk w2 THEME_STORAGE_KEY = Some (stringify_preference toggled now).
Proof.
  intros scheme stored v x now evs Hstored Hx [-> | ->] toggled;
    cbn; rewrite Hstored; cbn; rewrite Hx; cbn;
    do 2 eexists; repeat split; reflexivity.
Qed.

Lemma load_overrides_early_toggle_witness :
  let old :=
    JS.object [("isDark", JS.boolean false);
               ("lastUpdated", JS.str "2024-05-01T08:00:00.000Z")] in
  let now := "2024-05-02T09:30:00.000Z" in
  exists w1 w2,
    run scheme_light (mount scheme_light (fun _ => Some (json old)))
      [StoreAnswersRead true; ToggleTheme now; WriteSettles 0 true] = Some w1 /\
    st_isDark w1 = JS.boolean true /\
    st_isLoading w1 = true /\
    disk w1 THEME_STORAGE_KEY
      = Some (stringify_preference (JS.boolean true) now) /\
    run scheme_light (mount scheme_light (fun _ => Some (json old)))
      [StoreAnswersRead true; ToggleTheme now; WriteSettles 0 true; LoadResumes]
      = Some w2 /\
    st_isDark w2 = JS.boolean false /\
    st_isLoading w2 = false /\
    disk w2 THEME_STORAGE_KEY
      = Some (stringify_preference (JS.boolean true) now).
Proof.
  intros old now.
  exact (load_overrides_early_toggle scheme_light (fun _ => Some (json old))
           old (JS.boolean false) now _ eq_refl eq_refl (or_introl eq_refl)).
Defined.

End ResolverFacts.

(** ** Hexadecimal text and the integer paths of [ThemeUtils] *)

Module HexFacts.

Import Colors Colors.ThemeUtils.

(** A colour as the catalogue writes them: [#] and six hexadecimal
    digits, in either case. *)
Definition is_hex_digit (c : ascii) : bool :=
  match JS.hex_digit_value c with Some _ => true | None => false end.

Definition valid_hex_color (s : string) : bool :=
  match s with
  | String "#" (String a (String b (String c (String d (String e
      (String f EmptyString)))))) =>
      forallb is_hex_digit [a; b; c; d; e; f]
  | _ => false
  end.

(** The three channels of a colour, read as [getLuminance] and
    [adjustBrightness] read them. *)
Definition channels (hex : string) : Z * Z * Z :=
  let num := JS.parseInt16 (JS.slice 1 hex) in
  (JS.band (JS.Int (JS.sar num 16)) (JS.Int 255),
   JS.band (JS.Int (JS.sar num 8)) (JS.Int 255),
   JS.band num (JS.Int 255)).

(** Two lower-case hexadecimal digits. *)
Definition hex2 (n : Z) : string :=
  String (JS.hex_digit_char (n / 16))
    (String (JS.hex_digit_char (n mod 16)) EmptyString).

Definition int_of (a : JS.num) : Z :=
  match a with JS.Int z => z | _ => 0 end.

Ltac each_char c :=
  destruct c as [[] [] [] [] [] [] [] []].

Lemma hex_digit_facts : forall c v,
  JS.hex_digit_value c = Some v ->
  0 <= v < 16 /\
  JS.is_whitespace c = false /\
  (c =? "x")%char = false /\ (c =? "X")%char = false /\
  JS.hex_digit_char v = JS.lower_char c.
Proof.
  intros c v H.
  each_char c; vm_compute in H; try discriminate H;
    injection H as <-; vm_compute; repeat split; congruence.
Qed.

Lemma hex_digit_char_value : forall d,
  0 <= d < 16 -> JS.hex_digit_value (JS.hex_digit_char d) = Some d.
Proof.
  intros d Hd.
  assert (H : d = 0 \/ d = 1 \/ d = 2 \/ d = 3 \/ d = 4 \/ d = 5 \/ d = 6 \/
              d = 7 \/ d = 8 \/ d = 9 \/ d = 10 \/ d = 11 \/ d = 12 \/
              d = 13 \/ d = 14 \/ d = 15) by lia.
  repeat (destruct H as [-> | H]; [reflexivity|]). subst d. reflexivity.
Qed.

Lemma hex_digit_char_lower : forall d,
  0 <= d < 16 -> JS.lower_char (JS.hex_digit_char d) = JS.hex_digit_char d.
Proof.
  intros d Hd.
  assert (H : d = 0 \/ d = 1 \/ d = 2 \/ d = 3 \/ d = 4 \/ d = 5 \/ d = 6 \/
              d = 7 \/ d = 8 \/ d = 9 \/ d = 10 \/ d = 11 \/ d = 12 \/
              d = 13 \/ d = 14 \/ d = 15) by lia.
  repeat (destruct H as [-> | H]; [reflexivity|]). subst d. reflexivity.
Qed.

Lemma slice_1_cons : forall c s, JS.slice 1 (String c s) = s.
Proof. reflexivity. Qed.

Lemma trim_start_digit : forall c rest,
  JS.is_whitespace c = false ->
  JS.trim_start (String c rest) = String c rest.
Proof. intros c rest H. cbn [JS.trim_start]. rewrite H. reflexivity. Qed.

(** [parseInt] on text that starts with two hexadecimal digits: nothing
    is skipped. *)
Lemma parseInt16_two_digits : forall c1 c2 rest v1 v2,
  JS.hex_digit_value c1 = Some v1 ->
  JS.hex_digit_value c2 = Some v2 ->
  JS.parseInt16 (String c1 (String c2 rest))
  = match JS.hex_prefix (Some (16 * (16 * 0 + v1) + v2)) rest with
    | Some z => JS.Int z
    | None => JS.NaN
    end.
Proof.
  intros c1 c2 rest v1 v2 H1 H2.
  destruct (hex_digit_facts c1 v1 H1) as (_ & Hw & _).
  destruct (hex_digit_facts c2 v2 H2) as (_ & _ & Hx & HX & _).
  unfold JS.parseInt16. rewrite (trim_start_digit _ _ Hw).
  assert (Hsign : forall R,
             match String c1 R with
             | String "-" r => (true, r)
             | String "+" r => (false, r)
             | _ => (false, String c1 R)
             end = (false, String c1 R)).
  { intros R. clear -H1.
    each_char c1; vm_compute in H1; try discriminate H1; reflexivity. }
  rewrite Hsign.
  assert (Hstrip : JS.strip_0x (String c1 (String c2 rest))
                   = String c1 (String c2 rest)).
  { unfold JS.strip_0x. clear -Hx HX.
    each_char c1; try reflexivity. rewrite Hx, HX. reflexivity. }
  rewrite Hstrip. cbn [JS.hex_prefix]. rewrite H1, H2. reflexivity.
Qed.

Lemma parseInt16_six_digits : forall c1 c2 c3 c4 c5 c6 v1 v2 v3 v4 v5 v6,
  JS.hex_digit_value c1 = Some v1 -> JS.hex_digit_value c2 = Some v2 ->
  JS.hex_digit_value c3 = Some v3 -> JS.hex_digit_value c4 = Some v4 ->
  JS.hex_digit_value c5 = Some v5 -> JS.hex_digit_value c6 = Some v6 ->
  JS.parseInt16
    (String c1 (String c2 (String c3 (String c4 (String c5 (String c6 ""))))))
  = JS.Int (65536 * (16 * v1 + v2) + 256 * (16 * v3 + v4) + (16 * v5 + v6)).
Proof.
  intros * H1 H2 H3 H4 H5 H6.
  rewrite (parseInt16_two_digits _ _ _ _ _ H1 H2).
  cbn [JS.hex_prefix]. rewrite H3, H4, H5, H6. f_equal. lia.
Qed.

(** The channels of a number below [2^24], by shifts and masks. *)
Lemma channels_of_number : forall r g b,
  0 <= r <= 255 -> 0 <= g <= 255 -> 0 <= b <= 255 ->
  let num := JS.Int (65536 * r + 256 * g + b) in
  JS.sar num 16 = r /\
  JS.band (JS.Int (JS.sar num 16)) (JS.Int 255) = r /\
  JS.band (JS.Int (JS.sar num 8)) (JS.Int 255) = g /\
  JS.band (JS.Int (JS.sar num 0)) (JS.Int 255) = b /\
  JS.band num (JS.Int 255) = b.
Proof.
  intros r g b Hr Hg Hb num.
  assert (Hsmall : forall z, 0 <= z < 16777216 -> JS.ToInt32 (JS.Int z) = z).
  { intros z Hz. unfold JS.ToInt32. rewrite Z.mod_small by lia. lia. }
  assert (Hmask : forall z, 0 <= z -> Z.land z 255 = z mod 256).
  { intros z Hz. change 255 with (Z.ones 8). rewrite Z.land_ones by lia.
    reflexivity. }
  unfold JS.sar, JS.band, num.
  rewrite !(Hsmall (65536 * r + 256 * g + b)) by lia.
  change (16 mod 32) with 16. change (8 mod 32) with 8. change (0 mod 32) with 0.
  rewrite !Z.shiftr_div_pow2 by lia.
  change (2 ^ 16) with 65536. change (2 ^ 8) with 256. change (2 ^ 0) with 1.
  assert (E16 : (65536 * r + 256 * g + b) / 65536 = r)
    by (symmetry; apply (Z.div_unique _ _ _ (256 * g + b)); lia).
  assert (E8 : (65536 * r + 256 * g + b) / 256 = 256 * r + g)
    by (symmetry; apply (Z.div_unique _ _ _ b); lia).
  rewrite E16, E8, Z.div_1_r.
  rewrite !Hsmall by lia. rewrite !Hmask by lia.
  repeat split.
  - apply Z.mod_small; lia.
  - symmetry. apply (Z.mod_unique _ _ r); lia.
  - symmetry. apply (Z.mod_unique _ _ (256 * r + g)); lia.
  - symmetry. apply (Z.mod_unique _ _ (256 * r + g)); lia.
Qed.

Lemma hex_digits_fuel_step : forall fuel n d tail,
  0 < n -> 0 <= d < 16 ->
  JS.hex_digits_fuel (S fuel) (16 * n + d) tail
  = JS.hex_digits_fuel fuel n (String (JS.hex_digit_char d) tail).
Proof.
  intros fuel n d tail Hn Hd. cbn [JS.hex_digits_fuel].
  replace ((16 * n + d) mod 16) with d
    by (apply (Z.mod_unique _ _ n); lia).
  replace ((16 * n + d) / 16) with n
    by (apply (Z.div_unique _ _ _ d); lia).
  destruct (Z.ltb_spec (16 * n + d) 16); [lia|reflexivity].
Qed.

Lemma byte_digits : forall n,
  0 <= n <= 255 -> 0 <= n / 16 < 16 /\ 0 <= n mod 16 < 16 /\
  n = 16 * (n / 16) + n mod 16.
Proof.
  intros n Hn. pose proof (Z.div_mod n 16 ltac:(lia)).
  pose proof (Z.mod_pos_bound n 16 ltac:(lia)).
  assert (0 <= n / 16) by (apply Z.div_pos; lia).
  assert (n / 16 < 16) by (apply Z.div_lt_upper_bound; lia).
  lia.
Qed.

(** [(0x1000000 + r * 0x10000 + g * 0x100 + b).toString(16).slice(1)]:
    six digits, always. *)
Lemma toString16_rgb : forall r g b,
  0 <= r <= 255 -> 0 <= g <= 255 -> 0 <= b <= 255 ->
  JS.slice 1 (JS.toString16 (JS.Int (16777216 + r * 65536 + g * 256 + b)))
  = (hex2 r ++ hex2 g ++ hex2 b)%string.
Proof.
  intros r g b Hr Hg Hb.
  destruct (byte_digits r Hr) as (Hr1 & Hr2 & Er).
  destruct (byte_digits g Hg) as (Hg1 & Hg2 & Eg).
  destruct (byte_digits b Hb) as (Hb1 & Hb2 & Eb).
  set (M := 16777216 + r * 65536 + g * 256 + b).
  assert (HM : 2 ^ 24 <= M < 2 ^ (24 + 1)).
  { change (2 ^ 24) with 16777216. change (2 ^ (24 + 1)) with 33554432.
    subst M. lia. }
  unfold JS.toString16.
  destruct (Z.ltb_spec M 0) as [Hneg|_];
    [change (2 ^ 24) with 16777216 in HM; lia|].
  unfold JS.hex_digits.
  rewrite (Z.log2_unique M 24) by (try exact HM; lia).
  change (S (Z.to_nat 24)) with 25%nat.
  replace M with
    (16 * (16 * (16 * (16 * (16 * (16 * 1 + r / 16) + r mod 16) + g / 16)
                 + g mod 16) + b / 16) + b mod 16)
    by (subst M; lia).
  do 6 (rewrite hex_digits_fuel_step by lia).
  reflexivity.
Qed.

Lemma clamp_spec : forall x,
  exists z, clamp x = JS.Int z /\ 0 <= z <= 255 /\
            forall v, x = JS.Int v ->
                      (v < 1 -> z = 0) /\ (255 <= v -> z = 255) /\
                      (1 <= v < 255 -> z = v).
Proof.
  intros [|[]|v]; unfold clamp; cbn.
  - exists 255. split; [reflexivity|]. split; [lia|]. intros v Hv. discriminate Hv.
  - exists 0. split; [reflexivity|]. split; [lia|]. intros v Hv. discriminate Hv.
  - exists 255. split; [reflexivity|]. split; [lia|]. intros v Hv. discriminate Hv.
  - destruct (Z.ltb_spec v 255), (Z.ltb_spec v 1).
    + exists 0. split; [reflexivity|]. split; [lia|]. intros v0 [= <-]. lia.
    + exists v. split; [reflexivity|]. split; [lia|]. intros v0 [= <-]. lia.
    + lia.
    + exists 255. split; [reflexivity|]. split; [lia|]. intros v0 [= <-]. lia.
Qed.

Lemma valid_hex_color_inv : forall hex,
  valid_hex_color hex = true ->
  exists c1 c2 c3 c4 c5 c6 v1 v2 v3 v4 v5 v6,
    hex = String "#" (String c1 (String c2 (String c3 (String c4 (String c5
            (String c6 "")))))) /\
    JS.hex_digit_value c1 = Some v1 /\ JS.hex_digit_value c2 = Some v2 /\
    JS.hex_digit_value c3 = Some v3 /\ JS.hex_digit_value c4 = Some v4 /\
    JS.hex_digit_value c5 = Some v5 /\ JS.hex_digit_value c6 = Some v6.
Proof.
  intros hex H.
  destruct hex as [|c0 tail]; [discriminate H|].
  each_char c0; try discriminate H.
  destruct tail as [|c1 [|c2 [|c3 [|c4 [|c5 [|c6 [|c7 rest]]]]]]];
    try discriminate H.
  cbn in H. unfold is_hex_digit in H.
  destruct (JS.hex_digit_value c1) as [v1|] eqn:E1; [|discriminate].
  destruct (JS.hex_digit_value c2) as [v2|] eqn:E2; [|discriminate].
  destruct (JS.hex_digit_value c3) as [v3|] eqn:E3; [|discriminate].
  destruct (JS.hex_digit_value c4) as [v4|] eqn:E4; [|discriminate].
  destruct (JS.hex_digit_value c5) as [v5|] eqn:E5; [|discriminate].
  destruct (JS.hex_digit_value c6) as [v6|] eqn:E6; [|discriminate].
  exists c1, c2, c3, c4, c5, c6, v1, v2, v3, v4, v5, v6.
  repeat split; assumption || reflexivity.
Qed.

Lemma hex2_digits : forall c1 c2 v1 v2,
  JS.hex_digit_value c1 = Some v1 -> JS.hex_digit_value c2 = Some v2 ->
  hex2 (16 * v1 + v2) = String (JS.lower_char c1) (String (JS.lower_char c2) "").
Proof.
  intros c1 c2 v1 v2 H1 H2.
  destruct (hex_digit_facts c1 v1 H1) as (B1 & _ & _ & _ & L1).
  destruct (hex_digit_facts c2 v2 H2) as (B2 & _ & _ & _ & L2).
  unfold hex2.
  replace ((16 * v1 + v2) / 16) with v1
    by (apply (Z.div_unique _ _ _ v2); lia).
  replace ((16 * v1 + v2) mod 16) with v2
    by (apply (Z.mod_unique _ _ v1); lia).
  rewrite L1, L2. reflexivity.
Qed.

Lemma rgb_text_channels : forall r g b,
  0 <= r <= 255 -> 0 <= g <= 255 -> 0 <= b <= 255 ->
  let out := String "#" (hex2 r ++ hex2 g ++ hex2 b)%string in
  valid_hex_color out = true /\ channels out = (r, g, b).
Proof.
  intros r g b Hr Hg Hb out.
  destruct (byte_digits r Hr) as (Hr1 & Hr2 & Er).
  destruct (byte_digits g Hg) as (Hg1 & Hg2 & Eg).
  destruct (byte_digits b Hb) as (Hb1 & Hb2 & Eb).
  pose proof (hex_digit_char_value _ Hr1) as D1.
  pose proof (hex_digit_char_value _ Hr2) as D2.
  pose proof (hex_digit_char_value _ Hg1) as D3.
  pose proof (hex_digit_char_value _ Hg2) as D4.
  pose proof (hex_digit_char_value _ Hb1) as D5.
  pose proof (hex_digit_char_value _ Hb2) as D6.
  split.
  - subst out. unfold hex2. cbn [append valid_hex_color forallb].
    unfold is_hex_digit. rewrite D1, D2, D3, D4, D5, D6. reflexivity.
  - subst out. unfold channels, hex2. cbn [append JS.slice].
    rewrite (parseInt16_six_digits _ _ _ _ _ _ _ _ _ _ _ _ D1 D2 D3 D4 D5 D6).
    rewrite <- Er, <- Eg, <- Eb.
    destruct (channels_of_number r g b Hr Hg Hb) as (_ & -> & -> & _ & ->).
    reflexivity.
Qed.

(** The channels of a valid colour are bytes, and [adjustBrightness]
    writes the clamped sum of each one and the amount, two digits
    each. *)
Lemma adjustBrightness_unfolded : forall hex percent,
  valid_hex_color hex = true ->
  exists r g b r' g' b',
    channels hex = (r, g, b) /\
    (0 <= r <= 255 /\ 0 <= g <= 255 /\ 0 <= b <= 255) /\
    JS.toLowerCase hex = String "#" (hex2 r ++ hex2 g ++ hex2 b)%string /\
    clamp (JS.add (JS.Int r) (JS.Math_round (2.55 * percent)%float)) = JS.Int r' /\
    clamp (JS.add (JS.Int g) (JS.Math_round (2.55 * percent)%float)) = JS.Int g' /\
    clamp (JS.add (JS.Int b) (JS.Math_round (2.55 * percent)%float)) = JS.Int b' /\
    adjustBrightness hex percent
    = String "#" (hex2 r' ++ hex2 g' ++ hex2 b')%string.
Proof.
  intros hex percent Hvalid.
  destruct (valid_hex_color_inv hex Hvalid)
    as (c1 & c2 & c3 & c4 & c5 & c6 & v1 & v2 & v3 & v4 & v5 & v6 &
        -> & H1 & H2 & H3 & H4 & H5 & H6).
  pose proof (hex_digit_facts _ _ H1) as (B1 & _).
  pose proof (hex_digit_facts _ _ H2) as (B2 & _).
  pose proof (hex_digit_facts _ _ H3) as (B3 & _).
  pose proof (hex_digit_facts _ _ H4) as (B4 & _).
  pose proof (hex_digit_facts _ _ H5) as (B5 & _).
  pose proof (hex_digit_facts _ _ H6) as (B6 & _).
  set (r := 16 * v1 + v2). set (g := 16 * v3 + v4). set (b := 16 * v5 + v6).
  assert (Hr : 0 <= r <= 255) by (subst r; lia).
  assert (Hg : 0 <= g <= 255) by (subst g; lia).
  assert (Hb : 0 <= b <= 255) by (subst b; lia).
  set (amt := JS.Math_round (2.55 * percent)%float).
  destruct (clamp_spec (JS.add (JS.Int r) amt)) as (r' & Cr & Rr & _).
  destruct (clamp_spec (JS.add (JS.Int g) amt)) as (g' & Cg & Rg & _).
  destruct (clamp_spec (JS.add (JS.Int b) amt)) as (b' & Cb & Rb & _).
  destruct (channels_of_number r g b Hr Hg Hb) as (S16 & K16 & K8 & _ & K0).
  exists r, g, b, r', g', b'.
  split.
  { unfold channels. cbn [JS.slice].
    rewrite (parseInt16_six_digits _ _ _ _ _ _ _ _ _ _ _ _ H1 H2 H3 H4 H5 H6).
    fold r g b. rewrite K16, K8, K0. reflexivity. }
  split; [auto|]. split.
  { unfold JS.toLowerCase. cbn [JS.map_string].
    subst r g b.
    rewrite (hex2_digits _ _ _ _ H1 H2), (hex2_digits _ _ _ _ H3 H4),
      (hex2_digits _ _ _ _ H5 H6).
    reflexivity. }
  split; [exact Cr|]. split; [exact Cg|]. split; [exact Cb|].
  unfold adjustBrightness. rewrite slice_1_cons.
  rewrite (parseInt16_six_digits _ _ _ _ _ _ _ _ _ _ _ _ H1 H2 H3 H4 H5 H6).
  fold r g b. rewrite S16, K8, K0. fold amt. rewrite Cr, Cg, Cb.
  cbn [JS.add JS.mul]. rewrite toString16_rgb by assumption.
  reflexivity.
Qed.

(** C6, as the specification states it, fails: the digits come back in
    lower case, so a colour written with upper-case digits is not
    returned as it was. *)
Lemma adjustBrightness_zero_changes_case :
  ~ (forall c, valid_hex_color c = true -> adjustBrightness c 0 = c).
Proof.
  intros claim. specialize (claim "#FF0000" eq_refl).
  vm_compute in claim. discriminate claim.
Qed.

(** C6, amended. For every valid [#RRGGBB] colour [c],
    [adjustBrightness c 0] is [c] with its digits in lower case: the
    same three channels, and the same text exactly when [c] has no
    upper-case digit. *)
Theorem adjustBrightness_zero : forall c,
  valid_hex_color c = true ->
  adjustBrightness c 0 = JS.toLowerCase c /\
  channels (adjustBrightness c 0) = channels c /\
  (adjustBrightness c 0 = c <-> JS.toLowerCase c = c).
Proof.
  intros c Hvalid.
  destruct (adjustBrightness_unfolded c 0 Hvalid)
    as (r & g & b & r' & g' & b' & Hch & (Hr & Hg & Hb) & Hlow &
        Cr & Cg & Cb & Hout).
  change (JS.Math_round (2.55 * 0)%float) with (JS.Int 0) in Cr, Cg, Cb.
  cbn [JS.add] in Cr, Cg, Cb.
  assert (Hsame : forall x x', 0 <= x <= 255 ->
                    clamp (JS.Int (x + 0)) = JS.Int x' -> x' = x).
  { intros x x' Hx Hc.
    destruct (clamp_spec (JS.Int (x + 0))) as (z & Hz & _ & Hcases).
    rewrite Hz in Hc. injection Hc as <-.
    destruct (Hcases (x + 0) eq_refl) as (C1 & C2 & C3). lia. }
  apply Hsame in Cr, Cg, Cb; try assumption. subst r' g' b'.
  assert (E : adjustBrightness c 0 = JS.toLowerCase c) by congruence.
  split; [exact E|]. split.
  - rewrite Hout, Hch. apply rgb_text_channels; assumption.
  - rewrite E. tauto.
Qed.

Lemma adjustBrightness_zero_witness :
  adjustBrightness "#3f51b5" 0 = JS.toLowerCase "#3f51b5" /\
  channels (adjustBrightness "#3f51b5" 0) = channels "#3f51b5" /\
  (adjustBrightness "#3f51b5" 0 = "#3f51b5" <->
   JS.toLowerCase "#3f51b5" = "#3f51b5").
Proof. exact (adjustBrightness_zero "#3f51b5" eq_refl). Defined.

(** C7. For every valid [#RRGGBB] colour and every percentage (those
    of [-100, 100] among them), [adjustBrightness] returns a valid
    colour whose three channels are those of the input, each with the
    same amount [Math.round(2.55 * percent)] added and then clamped: a
    sum below 1 gives 0, a sum of 255 or more gives 255, any other sum
    is kept. Every channel of the result lies in [0, 255]. *)
Theorem adjustBrightness_channels : forall hex percent,
  valid_hex_color hex = true ->
  let amt := JS.Math_round (2.55 * percent)%float in
  exists r g b r' g' b',
    channels hex = (r, g, b) /\
    valid_hex_color (adjustBrightness hex percent) = true /\
    channels (adjustBrightness hex percent) = (r', g', b') /\
    (0 <= r' <= 255 /\ 0 <= g' <= 255 /\ 0 <= b' <= 255) /\
    JS.Int r' = clamp (JS.add (JS.Int r) amt) /\
    JS.Int g' = clamp (JS.add (JS.Int g) amt) /\
    JS.Int b' = clamp (JS.add (JS.Int b) amt) /\
    forall a, amt = JS.Int a ->
      forall x x', (x, x') = (r, r') \/ (x, x') = (g, g') \/ (x, x') = (b, b') ->
        (x + a < 1 -> x' = 0) /\ (255 <= x + a -> x' = 255) /\
        (1 <= x + a < 255 -> x' = x + a).
Proof.
  intros hex percent Hvalid amt.
  destruct (adjustBrightness_unfolded hex percent Hvalid)
    as (r & g & b & r' & g' & b' & Hch & _ & _ & Cr & Cg & Cb & Hout).
  fold amt in Cr, Cg, Cb.
  assert (Hrange : forall x x', clamp (JS.add (JS.Int x) amt) = JS.Int x' ->
            0 <= x' <= 255 /\
            forall a, amt = JS.Int a ->
              (x + a < 1 -> x' = 0) /\ (255 <= x + a -> x' = 255) /\
              (1 <= x + a < 255 -> x' = x + a)).
  { intros x x' Hc.
    destruct (clamp_spec (JS.add (JS.Int x) amt)) as (z & Hz & Hzr & Hcases).
    rewrite Hz in Hc. injection Hc as <-.
    split; [exact Hzr|]. intros a Ha. apply Hcases. rewrite Ha. reflexivity. }
  destruct (Hrange _ _ Cr) as (Rr & Sr).
  destruct (Hrange _ _ Cg) as (Rg & Sg).
  destruct (Hrange _ _ Cb) as (Rb & Sb).
  destruct (rgb_text_channels r' g' b' Rr Rg Rb) as (Hv & Hc).
  exists r, g, b, r', g', b'.
  rewrite Hout. repeat (split; [auto; fail|]).
  intros a Ha x x' [E | [E | E]]; injection E as -> ->; auto.
Qed.

Lemma adjustBrightness_channels_witness :
  exists r g b r' g' b',
    channels "#808080" = (r, g, b) /\
    valid_hex_color (adjustBrightness "#808080" 20) = true /\
    channels (adjustBrightness "#808080" 20) = (r', g', b') /\
    (0 <= r' <= 255 /\ 0 <= g' <= 255 /\ 0 <= b' <= 255) /\
    JS.Int r' = clamp (JS.add (JS.Int r) (JS.Math_round (2.55 * 20)%float)) /\
    JS.Int g' = clamp (JS.add (JS.Int g) (JS.Math_round (2.55 * 20)%float)) /\
    JS.Int b' = clamp (JS.add (JS.Int b) (JS.Math_round (2.55 * 20)%float)) /\
    forall a, JS.Math_round (2.55 * 20)%float = JS.Int a ->
      forall x x', (x, x') = (r, r') \/ (x, x') = (g, g') \/ (x, x') = (b, b') ->
        (x + a < 1 -> x' = 0) /\ (255 <= x + a -> x' = 255) /\
        (1 <= x + a < 255 -> x' = x + a).
Proof. exact (adjustBrightness_channels "#808080" 20 eq_refl). Defined.

End HexFacts.


(** ** Binary64 arithmetic, from the specification of the primitive floats *)

Module FloatFacts.

(** The number of binary digits of a non-negative integer. *)
Lemma digits2_log2 : forall p,
  Z.pos (digits2_pos p) = Z.log2 (Z.pos p) + 1.
Proof.
  assert (Hsize : forall p, digits2_pos p = Pos.size p)
    by (induction p; cbn; congruence).
  intros p. rewrite Hsize. destruct p; cbn; lia.
Qed.

Lemma Zdigits2_bounds : forall m,
  0 < m -> 2 ^ (Zdigits2 m - 1) <= m < 2 ^ Zdigits2 m.
Proof.
  intros [|p|p] Hm; try lia. cbn [Zdigits2]. rewrite digits2_log2.
  replace (Z.log2 (Z.pos p) + 1 - 1) with (Z.log2 (Z.pos p)) by lia.
  apply Z.log2_spec. lia.
Qed.

Lemma Zdigits2_unique : forall m d,
  0 < d -> 2 ^ (d - 1) <= m < 2 ^ d -> Zdigits2 m = d.
Proof.
  intros m d Hd Hm.
  assert (0 < m) by (pose proof (Z.pow_pos_nonneg 2 (d - 1)); lia).
  destruct m as [|p|p]; try lia. cbn [Zdigits2]. rewrite digits2_log2.
  rewrite (Z.log2_unique (Z.pos p) (d - 1)); try lia.
  replace (Z.succ (d - 1)) with d by lia. exact Hm.
Qed.

Lemma Zdigits2_nonneg : forall m, 0 <= Zdigits2 m.
Proof. intros [|p|p]; cbn; lia. Qed.

Lemma Zdigits2_le : forall m d,
  0 <= d -> 0 <= m < 2 ^ d -> Zdigits2 m <= d.
Proof.
  intros m d Hd Hm.
  destruct (Z.eq_dec m 0) as [->|Hnz]; [cbn; lia|].
  pose proof (Zdigits2_bounds m ltac:(lia)) as (Hlo & _).
  destruct (Z.le_gt_cases (Zdigits2 m) d) as [|Hgt]; [assumption|].
  assert (2 ^ d <= 2 ^ (Zdigits2 m - 1)) by (apply Z.pow_le_mono_r; lia).
  lia.
Qed.

(** *** Shifting a mantissa right *)

Lemma shr_1_m : forall mrs,
  0 <= shr_m mrs -> shr_m (shr_1 mrs) = shr_m mrs / 2.
Proof.
  intros [m r s] Hm. cbn in Hm. cbn [shr_m].
  rewrite <- Z.div2_div.
  destruct m as [|[p|p|]|p]; try reflexivity. lia.
Qed.

Lemma iter_shr_1_m : forall p mrs,
  0 <= shr_m mrs ->
  shr_m (iter_pos shr_1 p mrs) = shr_m mrs / 2 ^ Z.pos p.
Proof.
  assert (HxO : forall p, 2 ^ Z.pos p~0 = 2 ^ Z.pos p * 2 ^ Z.pos p).
  { intros p. rewrite <- Z.pow_add_r by lia. f_equal. lia. }
  assert (HxI : forall p, 2 ^ Z.pos p~1 = 2 * (2 ^ Z.pos p * 2 ^ Z.pos p)).
  { intros p. rewrite <- Z.pow_add_r, <- (Z.pow_succ_r 2) by lia. f_equal. lia. }
  assert (Hpos : forall p, 0 < 2 ^ Z.pos p) by (intros; apply Z.pow_pos_nonneg; lia).
  induction p as [p IH|p IH|]; intros mrs Hm; cbn [iter_pos].
  - assert (H1 : 0 <= shr_m (shr_1 mrs))
      by (rewrite shr_1_m by assumption; apply Z.div_pos; lia).
    assert (H2 : 0 <= shr_m (iter_pos shr_1 p (shr_1 mrs)))
      by (rewrite IH by assumption; apply Z.div_pos; [lia|apply Hpos]).
    rewrite IH, IH, shr_1_m by assumption.
    pose proof (Hpos p).
    rewrite !Z.div_div by lia. rewrite HxI. reflexivity.
  - assert (H2 : 0 <= shr_m (iter_pos shr_1 p mrs))
      by (rewrite IH by assumption; apply Z.div_pos; [lia|apply Hpos]).
    rewrite IH, IH by assumption.
    pose proof (Hpos p).
    rewrite !Z.div_div by lia. rewrite HxO. reflexivity.
  - rewrite shr_1_m by assumption. reflexivity.
Qed.

Lemma round_nearest_even_range : forall q l,
  q <= round_nearest_even q l <= q + 1.
Proof.
  intros q [|[]]; cbn; try lia. destruct (Z.even q); lia.
Qed.

(** Shifting by what the format asks for divides the mantissa by a
    power of two (by 1 when nothing has to go). *)
Lemma shr_fexp_exact : forall m e,
  0 <= m ->
  let n := fexp prec emax (Zdigits2 m + e) - e in
  exists mrs,
    shr_fexp prec emax m e loc_Exact = (mrs, e + Z.max 0 n) /\
    shr_m mrs = m / 2 ^ Z.max 0 n /\
    (n <= 0 -> loc_of_shr_record mrs = loc_Exact).
Proof.
  intros m e Hm n. unfold shr_fexp, shr. fold n. cbn [shr_record_of_loc].
  destruct n as [|p|p] eqn:Hn.
  - eexists. split; [f_equal; lia|]. cbn. rewrite Z.div_1_r. auto.
  - eexists. split; [reflexivity|]. split.
    + rewrite iter_shr_1_m by (cbn; lia). reflexivity.
    + lia.
  - eexists. split; [f_equal; lia|]. cbn. rewrite Z.div_1_r. auto.
Qed.

(** *** Rounding a positive mantissa to the format *)

(** The last step of [binary_round_aux]: what becomes of a rounded
    mantissa. *)
Definition finish (s : bool) (q e : Z) : spec_float :=
  match q with
  | 0 => S754_zero s
  | Z.pos m => if e <=? emax - prec then S754_finite s m e else S754_infinity s
  | Z.neg _ => S754_nan
  end.

Lemma fexp_eq : forall x, fexp prec emax x = Z.max (x - 53) (-1074).
Proof. reflexivity. Qed.

Lemma div_pow2_lt : forall m d sh,
  0 <= m < 2 ^ d -> 0 <= sh -> 0 <= d -> m / 2 ^ sh < 2 ^ Z.max 0 (d - sh).
Proof.
  intros m d sh Hm Hsh Hd.
  assert (0 < 2 ^ sh) by (apply Z.pow_pos_nonneg; lia).
  destruct (Z.le_gt_cases sh d).
  - rewrite Z.max_r by lia. apply Z.div_lt_upper_bound; [lia|].
    rewrite <- Z.pow_add_r by lia. replace (sh + (d - sh)) with d by lia. lia.
  - rewrite Z.max_l by lia. rewrite Z.div_small; [cbn; lia|].
    assert (2 ^ d <= 2 ^ sh) by (apply Z.pow_le_mono_r; lia). lia.
Qed.

(** [binary_round_aux] on an exact positive mantissa [M] at exponent
    [E]: with [e1] the exponent the format gives a number of this
    magnitude (or [E] itself when that is larger), the mantissa becomes
    [M / 2^(e1 - E)] or that plus one, at exponent [e1]; a mantissa that
    reaches [2^53] is renormalised. *)
Lemma round_aux_cases : forall s M E,
  let d := Z.pos (digits2_pos M) + E in
  let e1 := Z.max E (Z.max (d - 53) (-1074)) in
  exists q',
    Z.pos M / 2 ^ (e1 - E) <= q' <= Z.pos M / 2 ^ (e1 - E) + 1 /\
    (e1 = E -> q' = Z.pos M) /\
    q' <= 2 ^ 53 /\
    binary_round_aux prec emax s (Z.pos M) E loc_Exact
    = if q' =? 2 ^ 53 then finish s (2 ^ 52) (e1 + 1) else finish s q' e1.
Proof.
  intros s M E d e1.
  destruct (shr_fexp_exact (Z.pos M) E ltac:(lia)) as (mrs1 & Hs1 & Hm1 & Hl1).
  cbn [Zdigits2] in Hs1, Hm1, Hl1. fold d in Hs1, Hm1, Hl1.
  rewrite fexp_eq in Hs1, Hm1, Hl1.
  assert (Esh : E + Z.max 0 (Z.max (d - 53) (-1074) - E) = e1) by (subst e1; lia).
  assert (Esh' : Z.max 0 (Z.max (d - 53) (-1074) - E) = e1 - E) by lia.
  rewrite Esh in Hs1. rewrite Esh' in Hm1.
  set (q' := round_nearest_even (shr_m mrs1) (loc_of_shr_record mrs1)).
  pose proof (round_nearest_even_range (shr_m mrs1) (loc_of_shr_record mrs1)) as Hq.
  fold q' in Hq. rewrite Hm1 in Hq.
  assert (Hexact : e1 = E -> q' = Z.pos M).
  { intros He. subst q'. rewrite Hl1 by lia. cbn [round_nearest_even].
    rewrite Hm1, He, Z.sub_diag, Z.div_1_r. reflexivity. }
  pose proof (Zdigits2_bounds (Z.pos M) ltac:(lia)) as HM. cbn [Zdigits2] in HM.
  assert (Hd : Z.pos (digits2_pos M) = d - E) by (subst d; lia).
  rewrite Hd in HM.
  assert (Hq53 : q' <= 2 ^ 53).
  { destruct (Z.eq_dec e1 E) as [He|He].
    - rewrite (Hexact He).
      assert (2 ^ (d - E) <= 2 ^ 53) by (apply Z.pow_le_mono_r; lia). lia.
    - pose proof (div_pow2_lt (Z.pos M) (d - E) (e1 - E) ltac:(lia)
                    ltac:(lia) ltac:(lia)) as Hlt.
      assert (2 ^ Z.max 0 (d - E - (e1 - E)) <= 2 ^ 53)
        by (apply Z.pow_le_mono_r; lia).
      lia. }
  assert (Hq0 : 0 <= q').
  { assert (0 <= Z.pos M / 2 ^ (e1 - E)); [|lia].
    apply Z.div_pos; [lia|]. apply Z.pow_pos_nonneg; lia. }
  exists q'. split; [exact Hq|]. split; [exact Hexact|]. split; [exact Hq53|].
  destruct (shr_fexp_exact q' e1 Hq0) as (mrs2 & Hs2 & Hm2 & _).
  rewrite fexp_eq in Hs2, Hm2.
  unfold binary_round_aux. rewrite Hs1. fold q'. rewrite Hs2, Hm2.
  destruct (Z.eqb_spec q' (2 ^ 53)) as [Heq|Hne].
  - (* the mantissa overflowed into a 54th digit: one more shift *)
    assert (e1 <> E).
    { intros He. rewrite (Hexact He) in Heq.
      assert (2 ^ (d - E) <= 2 ^ 53) by (apply Z.pow_le_mono_r; lia).
      lia. }
    assert (Hnorm : e1 = d - 53).
    { destruct (Z.eq_dec e1 (d - 53)) as [|Hsub]; [assumption|exfalso].
      pose proof (div_pow2_lt (Z.pos M) (d - E) (e1 - E) ltac:(lia)
                    ltac:(lia) ltac:(lia)) as Hlt.
      assert (2 ^ Z.max 0 (d - E - (e1 - E)) <= 2 ^ 52)
        by (apply Z.pow_le_mono_r; lia).
      change (2 ^ 53) with 9007199254740992 in Heq.
      change (2 ^ 52) with 4503599627370496 in *. lia. }
    rewrite Heq. change (Zdigits2 (2 ^ 53)) with 54.
    replace (Z.max 0 (Z.max (54 + e1 - 53) (-1074) - e1)) with 1 by lia.
    reflexivity.
  - assert (Hdq : Zdigits2 q' <= 53)
      by (apply Zdigits2_le; lia).
    replace (Z.max 0 (Z.max (Zdigits2 q' + e1 - 53) (-1074) - e1)) with 0 by lia.
    rewrite Z.div_1_r, Z.add_0_r. reflexivity.
Qed.

(** *** Doubles between 0 and 1 *)

Lemma valid_finite : forall x s m e,
  Prim2SF x = S754_finite s m e ->
  Z.max (Z.pos (digits2_pos m) + e - 53) (-1074) = e /\ e <= 971.
Proof.
  intros x s m e Hx. pose proof (Prim2SF_valid x) as Hv. rewrite Hx in Hv.
  cbn [SpecFloat.valid_binary] in Hv. unfold bounded, canonical_mantissa in Hv.
  rewrite fexp_eq in Hv. apply andb_true_iff in Hv as (Hc & He).
  apply Z.eqb_eq in Hc. apply Z.leb_le in He.
  change (emax - prec) with 971 in He. auto.
Qed.

(** A double [x] with [0 <= x <= 1] is a zero, or 1, or a positive
    number below 1. *)
Lemma unit_interval_cases : forall x,
  (0 <=? x)%float = true -> (x <=? 1)%float = true ->
  (exists s, Prim2SF x = S754_zero s) \/
  x = 1%float \/
  (exists m e, Prim2SF x = S754_finite false m e /\
               Z.pos (digits2_pos m) + e <= 0 /\ -1074 <= e).
Proof.
  intros x H0 H1. rewrite leb_spec in H0, H1.
  change (Prim2SF 0) with (S754_zero false) in H0.
  change (Prim2SF 1) with (S754_finite false 4503599627370496 (-52)) in H1.
  destruct (Prim2SF x) as [s|s| |s m e] eqn:Hx.
  - left. eauto.
  - destruct s; discriminate.
  - discriminate.
  - destruct s; [discriminate|].
    destruct (valid_finite x _ _ _ Hx) as (Hc & He).
    unfold SFleb, SFcompare in H1.
    destruct (Z.compare_spec e (-52)) as [Heq|Hlt|Hgt].
    + right. left. apply Prim2SF_inj. rewrite Hx.
      change (Prim2SF 1) with (S754_finite false 4503599627370496 (-52)).
      subst e. f_equal.
      assert (Hd : Z.pos (digits2_pos m) = 53) by lia.
      pose proof (Zdigits2_bounds (Z.pos m) ltac:(lia)) as (Hlo & _).
      cbn [Zdigits2] in Hlo. rewrite Hd in Hlo. change (2 ^ (53 - 1))
        with 4503599627370496 in Hlo.
      destruct (Pos.compare_cont Eq m 4503599627370496) eqn:Hcmp;
        try discriminate.
      * apply Pos.compare_eq in Hcmp. exact Hcmp.
      * assert (Hlt : Z.pos m < 4503599627370496)
          by (apply Pos2Z.pos_lt_pos; exact Hcmp).
        exfalso. clear Hcmp. lia.
    + right. right. exists m, e. split; [reflexivity|]. lia.
    + discriminate.
Qed.

(** *** [Math.round(alpha * 255)] for [alpha] in [0, 1] *)

Lemma Math_round_finish : forall x q e,
  Prim2SF x = finish false q e ->
  0 <= q <= 255 * 2 ^ (- e) -> e < 0 ->
  exists n, JS.Math_round x = JS.Int n /\ 0 <= n <= 255.
Proof.
  intros x q e Hx Hq He. unfold JS.Math_round. rewrite Hx.
  destruct q as [|m|m]; cbn [finish]; [exists 0; split; [reflexivity|lia] | | lia].
  change (emax - prec) with 971.
  destruct (Z.leb_spec e 971); [|lia].
  destruct (Z.leb_spec 0 e); [lia|].
  assert (Hp : 0 < 2 ^ (- e)) by (apply Z.pow_pos_nonneg; lia).
  assert (Hp2 : 2 ^ (1 - e) = 2 * 2 ^ (- e)).
  { replace (1 - e) with (Z.succ (- e)) by lia. apply Z.pow_succ_r. lia. }
  eexists. split; [reflexivity|]. rewrite Hp2. split.
  - apply Z.div_pos; lia.
  - assert ((2 * Z.pos m + 2 ^ (- e)) / (2 * 2 ^ (- e)) < 256); [|lia].
    apply Z.div_lt_upper_bound; lia.
Qed.

Lemma digits_mul : forall a b,
  Z.pos (digits2_pos (a * b))
  <= Z.pos (digits2_pos a) + Z.pos (digits2_pos b).
Proof.
  intros a b.
  pose proof (Zdigits2_bounds (Z.pos a) ltac:(lia)) as (_ & Ha).
  pose proof (Zdigits2_bounds (Z.pos b) ltac:(lia)) as (_ & Hb).
  cbn [Zdigits2] in Ha, Hb.
  change (Z.pos (digits2_pos (a * b))) with (Zdigits2 (Z.pos (a * b))).
  apply Zdigits2_le; [lia|]. rewrite Pos2Z.inj_mul, Z.pow_add_r by lia.
  split; [lia|]. apply Z.mul_lt_mono_nonneg; lia.
Qed.

(** For a double [alpha] in [0, 1], [Math.round(alpha * 255)] is an
    integer from 0 to 255. *)
Lemma round_alpha_255 : forall alpha,
  (0 <=? alpha)%float = true -> (alpha <=? 1)%float = true ->
  exists n, JS.Math_round (alpha * 255)%float = JS.Int n /\ 0 <= n <= 255.
Proof.
  intros alpha H0 H1.
  destruct (unit_interval_cases alpha H0 H1)
    as [(s & Hz) | [-> | (m & e & Hx & Hmag & Hmin)]].
  - exists 0. split; [|lia]. unfold JS.Math_round.
    rewrite mul_spec, Hz.
    change (Prim2SF 255) with (S754_finite false 8972014882652160 (-45)).
    reflexivity.
  - exists 255. split; [reflexivity|lia].
  - pose proof (mul_spec alpha 255) as Hmul. rewrite Hx in Hmul.
    change (Prim2SF 255) with (S754_finite false 8972014882652160 (-45)) in Hmul.
    cbn [SF64mul SFmul xorb] in Hmul.
    destruct (round_aux_cases false (m * 8972014882652160) (e + -45))
      as (q' & Hq & _ & _ & Hr).
    cbv zeta in Hq, Hr. rewrite Hr in Hmul. clear Hr.
    set (M := (m * 8972014882652160)%positive) in *.
    set (d := Z.pos (digits2_pos M) + (e + -45)) in *.
    set (e1 := Z.max (e + -45) (Z.max (d - 53) (-1074))) in *.
    pose proof (digits_mul m 8972014882652160) as HdM. fold M in HdM.
    change (Z.pos (digits2_pos 8972014882652160)) with 53 in HdM.
    assert (He1 : e1 <= -45) by lia.
    assert (He1' : e + -45 <= e1) by lia.
    (* the exact product is below 255 *)
    pose proof (Zdigits2_bounds (Z.pos m) ltac:(lia)) as (_ & Hm).
    cbn [Zdigits2] in Hm.
    assert (Hm' : Z.pos m < 2 ^ (- e)).
    { assert (2 ^ Z.pos (digits2_pos m) <= 2 ^ (- e))
        by (apply Z.pow_le_mono_r; lia). lia. }
    assert (HM : Z.pos M < 255 * 2 ^ (- e1) * 2 ^ (e1 - (e + -45))).
    { rewrite <- Z.mul_assoc, <- Z.pow_add_r by lia.
      replace (- e1 + (e1 - (e + -45))) with (45 + - e) by lia.
      rewrite Z.pow_add_r by lia. subst M. rewrite Pos2Z.inj_mul.
      change 8972014882652160 with (255 * 2 ^ 45).
      assert (0 < 2 ^ 45) by (apply Z.pow_pos_nonneg; lia). nia. }
    assert (Hpos : 0 < 2 ^ (e1 - (e + -45))) by (apply Z.pow_pos_nonneg; lia).
    assert (Hq' : Z.pos M / 2 ^ (e1 - (e + -45)) < 255 * 2 ^ (- e1))
      by (apply Z.div_lt_upper_bound; lia).
    assert (Hq0 : 0 <= Z.pos M / 2 ^ (e1 - (e + -45)))
      by (apply Z.div_pos; lia).
    destruct (Z.eqb_spec q' (2 ^ 53)) as [Heq|Hne].
    + apply (Math_round_finish _ _ _ Hmul); [|lia].
      replace (- (e1 + 1)) with (- e1 - 1) by lia.
      assert (E2 : 2 ^ (- e1) = 2 * 2 ^ (- e1 - 1)).
      { replace (- e1) with (Z.succ (- e1 - 1)) at 1 by lia.
        apply Z.pow_succ_r. lia. }
      change (2 ^ 53) with (2 * 2 ^ 52) in Heq. lia.
    + apply (Math_round_finish _ _ _ Hmul); lia.
Qed.

(** *** Magnitudes: non-negative doubles below a power of two *)

(** [small B f]: [f] is a zero or a positive finite number below [2^B]. *)
Definition small (B : Z) (f : spec_float) : Prop :=
  match f with
  | S754_zero _ => True
  | S754_finite false m e => Z.pos (digits2_pos m) + e <= B
  | _ => False
  end.

Lemma small_le : forall B B' f, small B f -> B <= B' -> small B' f.
Proof. intros B B' [s|s| |[] m e]; cbn; intros; auto; lia. Qed.

Lemma pow2_le_inv : forall a b, 0 <= b -> 2 ^ a <= 2 ^ b -> a <= b.
Proof.
  intros a b Hb H. destruct (Z.le_gt_cases a b) as [|Hgt]; [assumption|].
  assert (2 ^ b < 2 ^ a) by (apply Z.pow_lt_mono_r; lia). lia.
Qed.

Lemma round_aux_small : forall M E B,
  Z.pos (digits2_pos M) + E <= B -> -1074 <= B <= 1023 -> E <= 971 ->
  small (B + 1) (binary_round_aux prec emax false (Z.pos M) E loc_Exact).
Proof.
  intros M E B Hd HB HE.
  destruct (round_aux_cases false M E) as (q' & Hq & _ & _ & Hr).
  cbv zeta in Hq, Hr. rewrite Hr. clear Hr.
  set (d := Z.pos (digits2_pos M) + E) in *.
  set (e1 := Z.max E (Z.max (d - 53) (-1074))) in *.
  pose proof (Zdigits2_bounds (Z.pos M) ltac:(lia)) as HM. cbn [Zdigits2] in HM.
  pose proof (div_pow2_lt (Z.pos M) (Z.pos (digits2_pos M)) (e1 - E)
                ltac:(lia) ltac:(lia) ltac:(lia)) as Hlt.
  replace (Z.pos (digits2_pos M) - (e1 - E)) with (d - e1) in Hlt by lia.
  assert (Hq0 : 0 <= Z.pos M / 2 ^ (e1 - E))
    by (apply Z.div_pos; [lia|apply Z.pow_pos_nonneg; lia]).
  destruct (Z.eqb_spec q' (2 ^ 53)) as [Heq|Hne].
  - assert (53 <= Z.max 0 (d - e1)) by (apply pow2_le_inv; lia).
    change (2 ^ 52) with 4503599627370496. cbn [finish].
    change (emax - prec) with 971.
    destruct (Z.leb_spec (e1 + 1) 971); [|lia].
    cbn [small]. change (Z.pos (digits2_pos 4503599627370496)) with 53. lia.
  - destruct q' as [|m|m]; cbn [finish small]; [trivial| |lia].
    change (emax - prec) with 971.
    destruct (Z.leb_spec e1 971); [|lia].
    cbn [small].
    change (Z.pos (digits2_pos m)) with (Zdigits2 (Z.pos m)).
    assert (Zdigits2 (Z.pos m) <= Z.max 0 (d - e1) + 1); [|lia].
    apply Zdigits2_le; [lia|]. rewrite Z.pow_add_r, Z.pow_1_r by lia. lia.
Qed.

Lemma round_aux_finite : forall M E,
  -1074 < Z.pos (digits2_pos M) + E <= 1023 -> E <= 971 ->
  exists m e,
    binary_round_aux prec emax false (Z.pos M) E loc_Exact
    = S754_finite false m e.
Proof.
  intros M E Hd HE.
  destruct (round_aux_cases false M E) as (q' & Hq & _ & _ & Hr).
  cbv zeta in Hq, Hr. rewrite Hr. clear Hr.
  set (d := Z.pos (digits2_pos M) + E) in *.
  set (e1 := Z.max E (Z.max (d - 53) (-1074))) in *.
  pose proof (Zdigits2_bounds (Z.pos M) ltac:(lia)) as HM. cbn [Zdigits2] in HM.
  pose proof (div_pow2_lt (Z.pos M) (Z.pos (digits2_pos M)) (e1 - E)
                ltac:(lia) ltac:(lia) ltac:(lia)) as Hlt.
  replace (Z.pos (digits2_pos M) - (e1 - E)) with (d - e1) in Hlt by lia.
  change (emax - prec) with 971.
  destruct (Z.eqb_spec q' (2 ^ 53)) as [Heq|Hne].
  - assert (53 <= Z.max 0 (d - e1)) by (apply pow2_le_inv; lia).
    change (2 ^ 52) with 4503599627370496. cbn [finish].
    change (emax - prec) with 971.
    destruct (Z.leb_spec (e1 + 1) 971); [eauto|lia].
  - assert (1 <= Z.pos M / 2 ^ (e1 - E)).
    { apply Z.div_le_lower_bound; [apply Z.pow_pos_nonneg; lia|].
      assert (2 ^ (e1 - E) <= 2 ^ (Z.pos (digits2_pos M) - 1))
        by (apply Z.pow_le_mono_r; lia).
      lia. }
    destruct q' as [|m|m]; try lia. cbn [finish].
    change (emax - prec) with 971.
    destruct (Z.leb_spec e1 971); [eauto|lia].
Qed.

Lemma iter_xO : forall k M, Z.pos (Pos.iter xO M k) = Z.pos M * 2 ^ Z.pos k.
Proof.
  intros k M. induction k as [|k IH] using Pos.peano_ind.
  - cbn. lia.
  - rewrite Pos.iter_succ, Pos2Z.inj_xO, IH, Pos2Z.inj_succ.
    rewrite Z.pow_succ_r by lia. lia.
Qed.

Lemma digits_shift : forall M k,
  0 <= k ->
  Zdigits2 (Z.pos M * 2 ^ k) = Z.pos (digits2_pos M) + k.
Proof.
  intros M k Hk.
  pose proof (Zdigits2_bounds (Z.pos M) ltac:(lia)) as HM. cbn [Zdigits2] in HM.
  assert (0 < 2 ^ k) by (apply Z.pow_pos_nonneg; lia).
  apply Zdigits2_unique; [lia|].
  replace (Z.pos (digits2_pos M) + k - 1) with (Z.pos (digits2_pos M) - 1 + k)
    by lia.
  rewrite !Z.pow_add_r by lia. nia.
Qed.

(** [binary_round] first aligns the mantissa, so it needs no bound on
    the exponent it is given. *)
Lemma binary_round_aligned : forall M E,
  exists M' E',
    binary_round prec emax false M E
    = binary_round_aux prec emax false (Z.pos M') E' loc_Exact /\
    Z.pos (digits2_pos M') + E' = Z.pos (digits2_pos M) + E /\
    E' <= Z.max (Z.pos (digits2_pos M) + E - 53) (-1074).
Proof.
  intros M E. unfold binary_round, shl_align. rewrite fexp_eq.
  set (d := Z.pos (digits2_pos M) + E).
  destruct (Z.max (d - 53) (-1074) - E) as [|k|k] eqn:Hk.
  - exists M, E. split; [reflexivity|]. split; [reflexivity|]. lia.
  - exists M, E. split; [reflexivity|]. split; [reflexivity|]. lia.
  - exists (Pos.iter xO M k), (Z.max (d - 53) (-1074)).
    split; [reflexivity|]. split; [|lia].
    change (Z.pos (digits2_pos (Pos.iter xO M k)))
      with (Zdigits2 (Z.pos (Pos.iter xO M k))).
    rewrite iter_xO, digits_shift by lia. lia.
Qed.

Lemma binary_round_small : forall M E B,
  Z.pos (digits2_pos M) + E <= B -> -1074 <= B <= 1023 ->
  small (B + 1) (binary_round prec emax false M E).
Proof.
  intros M E B Hd HB.
  destruct (binary_round_aligned M E) as (M' & E' & -> & Hd' & HE').
  apply round_aux_small; lia.
Qed.

Lemma binary_round_finite : forall M E,
  -1074 < Z.pos (digits2_pos M) + E <= 1023 ->
  exists m e, binary_round prec emax false M E = S754_finite false m e.
Proof.
  intros M E Hd.
  destruct (binary_round_aligned M E) as (M' & E' & -> & Hd' & HE').
  apply round_aux_finite; lia.
Qed.

(** *** Products, sums and quotients of doubles *)

Lemma mul_small : forall x y B1 B2,
  small B1 (Prim2SF x) -> small B2 (Prim2SF y) ->
  -1074 <= B1 + B2 <= 973 ->
  small (B1 + B2 + 1) (Prim2SF (x * y)).
Proof.
  intros x y B1 B2 Hx Hy HB. rewrite mul_spec.
  destruct (Prim2SF x) as [sx|sx| |[] mx ex]; cbn [small] in Hx; try contradiction;
    destruct (Prim2SF y) as [sy|sy| |[] my ey]; cbn [small] in Hy;
    try contradiction; cbn [SF64mul SFmul xorb small]; trivial.
  pose proof (digits_mul mx my).
  apply round_aux_small; lia.
Qed.

Lemma shl_align_fst : forall m e ez,
  ez <= e -> Z.pos (fst (shl_align m e ez)) = Z.pos m * 2 ^ (e - ez).
Proof.
  intros m e ez Hle. unfold shl_align.
  destruct (ez - e) as [|k|k] eqn:Hk; cbn [fst]; try lia.
  - replace (e - ez) with 0 by lia. lia.
  - rewrite iter_xO. f_equal. f_equal. lia.
Qed.

Lemma Zdigits2_ge : forall m k, 0 < m -> 2 ^ (k - 1) <= m -> k <= Zdigits2 m.
Proof.
  intros m k Hm Hk.
  pose proof (Zdigits2_bounds m Hm) as (_ & Hhi).
  pose proof (Zdigits2_nonneg m).
  assert (k - 1 < Zdigits2 m); [|lia].
  destruct (Z.le_gt_cases (Zdigits2 m) (k - 1)) as [Hle|]; [|assumption].
  assert (2 ^ Zdigits2 m <= 2 ^ (k - 1)) by (apply Z.pow_le_mono_r; lia). lia.
Qed.

(** The aligned sum of two positive finite numbers, as [SFadd] forms it. *)
Lemma add_finite_finite : forall mx ex my ey,
  exists M,
    SF64add (S754_finite false mx ex) (S754_finite false my ey)
    = binary_round prec emax false M (Z.min ex ey) /\
    Z.pos M = Z.pos mx * 2 ^ (ex - Z.min ex ey)
              + Z.pos my * 2 ^ (ey - Z.min ex ey).
Proof.
  intros mx ex my ey. cbn [SF64add SFadd cond_Zopp].
  exists (fst (shl_align mx ex (Z.min ex ey))
          + fst (shl_align my ey (Z.min ex ey)))%positive.
  split; [reflexivity|].
  rewrite Pos2Z.inj_add, !shl_align_fst by lia. reflexivity.
Qed.

Lemma add_magnitude : forall mx ex my ey M,
  Z.pos M = Z.pos mx * 2 ^ (ex - Z.min ex ey)
            + Z.pos my * 2 ^ (ey - Z.min ex ey) ->
  let d := Z.pos (digits2_pos M) + Z.min ex ey in
  Z.pos (digits2_pos my) + ey <= d /\
  d <= Z.max (Z.pos (digits2_pos mx) + ex) (Z.pos (digits2_pos my) + ey) + 1.
Proof.
  intros mx ex my ey M HM d. subst d.
  set (ez := Z.min ex ey) in *.
  pose proof (digits_shift mx (ex - ez) ltac:(lia)) as Dx.
  pose proof (digits_shift my (ey - ez) ltac:(lia)) as Dy.
  assert (Px : 0 < 2 ^ (ex - ez)) by (apply Z.pow_pos_nonneg; lia).
  assert (Py : 0 < 2 ^ (ey - ez)) by (apply Z.pow_pos_nonneg; lia).
  pose proof (Zdigits2_bounds (Z.pos mx * 2 ^ (ex - ez)) ltac:(lia)) as Bx.
  pose proof (Zdigits2_bounds (Z.pos my * 2 ^ (ey - ez)) ltac:(lia)) as By.
  rewrite Dx in Bx. rewrite Dy in By.
  change (Z.pos (digits2_pos M)) with (Zdigits2 (Z.pos M)).
  split.
  - assert (Z.pos (digits2_pos my) + (ey - ez) <= Zdigits2 (Z.pos M)); [|lia].
    apply Zdigits2_ge; lia.
  - set (K := Z.max (Z.pos (digits2_pos mx) + ex) (Z.pos (digits2_pos my) + ey)).
    assert (Zdigits2 (Z.pos M) <= K - ez + 1); [|lia].
    assert (HK : 0 <= K - ez) by lia.
    apply Zdigits2_le; [lia|]. split; [lia|].
    rewrite Z.pow_add_r, Z.pow_1_r by lia.
    assert (2 ^ (Z.pos (digits2_pos mx) + (ex - ez)) <= 2 ^ (K - ez))
      by (apply Z.pow_le_mono_r; lia).
    assert (2 ^ (Z.pos (digits2_pos my) + (ey - ez)) <= 2 ^ (K - ez))
      by (apply Z.pow_le_mono_r; lia).
    lia.
Qed.

Lemma add_small : forall x y B,
  small B (Prim2SF x) -> small B (Prim2SF y) -> -1075 <= B <= 1022 ->
  small (B + 2) (Prim2SF (x + y)).
Proof.
  intros x y B Hx Hy HB. rewrite add_spec.
  destruct (Prim2SF x) as [sx|sx| |[] mx ex]; cbn [small] in Hx; try contradiction;
    destruct (Prim2SF y) as [sy|sy| |[] my ey]; cbn [small] in Hy;
    try contradiction.
  - destruct sx, sy; exact I.
  - cbn [SF64add SFadd small]. lia.
  - cbn [SF64add SFadd small]. lia.
  - destruct (add_finite_finite mx ex my ey) as (M & -> & HM).
    destruct (add_magnitude _ _ _ _ _ HM) as (_ & Hd).
    replace (B + 2) with (B + 1 + 1) by lia.
    apply binary_round_small; lia.
Qed.

(** Adding a positive finite number to a non-negative one gives a
    positive finite number, unless the sum overflows. *)
Lemma add_finite_pos : forall x y my ey B,
  small B (Prim2SF x) -> Prim2SF y = S754_finite false my ey ->
  Z.pos (digits2_pos my) + ey <= B -> B <= 1022 ->
  exists m e, Prim2SF (x + y) = S754_finite false m e.
Proof.
  intros x y my ey B Hx Hy Hmy HB. rewrite add_spec.
  destruct (valid_finite y _ _ _ Hy) as (Hc & _). rewrite Hy.
  destruct (Prim2SF x) as [sx|sx| |[] mx ex]; cbn [small] in Hx; try contradiction.
  - cbn [SF64add SFadd]. eauto.
  - destruct (add_finite_finite mx ex my ey) as (M & -> & HM).
    destruct (add_magnitude _ _ _ _ _ HM) as (Hlo & Hhi).
    apply binary_round_finite; lia.
Qed.

(** A finite non-zero double divided by itself is exactly 1. *)
Lemma div_self : forall x s m e,
  Prim2SF x = S754_finite s m e -> (x / x)%float = 1%float.
Proof.
  intros x s m e Hx. apply Prim2SF_inj. rewrite div_spec, Hx.
  cbn [SF64div SFdiv]. unfold SFdiv_core_binary.
  replace (Zdigits2 (Z.pos m) + e - (Zdigits2 (Z.pos m) + e)) with 0 by lia.
  rewrite Z.sub_diag. cbn [fexp Z.min Z.max Z.sub Z.compare Z.opp].
  change (Z.min (fexp prec emax 0) 0) with (-53).
  change (0 - -53) with 53.
  rewrite Z.shiftl_mul_pow2 by lia.
  assert (Hdiv : Z.div_eucl (Z.pos m * 2 ^ 53) (Z.pos m) = (2 ^ 53, 0)).
  { pose proof (Z_div_mod (Z.pos m * 2 ^ 53) (Z.pos m) ltac:(lia)) as H.
    destruct (Z.div_eucl (Z.pos m * 2 ^ 53) (Z.pos m)) as [q r].
    destruct H as (Heq & Hr).
    assert (q = 2 ^ 53) by nia. subst q. f_equal. lia. }
  rewrite Hdiv.
  assert (Hloc : new_location (Z.pos m) 0 = loc_Exact).
  { unfold new_location, new_location_even, new_location_odd.
    destruct (Z.even (Z.pos m)); reflexivity. }
  rewrite Hloc. destruct s; reflexivity.
Qed.

Lemma unit_small : forall y,
  (0 <=? y)%float = true -> (y <=? 1)%float = true -> small 1 (Prim2SF y).
Proof.
  intros y H0 H1.
  destruct (unit_interval_cases y H0 H1) as [(s & ->) | [-> | (m & e & -> & H & _)]].
  - exact I.
  - cbn. lia.
  - cbn [small]. lia.
Qed.

Lemma small_not_nan : forall B x,
  small B (Prim2SF x) ->
  PrimFloat.is_nan x = false /\ (x <? x)%float = false.
Proof.
  intros B x Hx. unfold PrimFloat.is_nan. rewrite eqb_spec, ltb_spec.
  unfold SFeqb, SFltb.
  destruct (Prim2SF x) as [s|s| |[] m e]; cbn [small] in Hx; try contradiction.
  - auto.
  - cbn [SFcompare]. rewrite Z.compare_refl.
    rewrite Pos.compare_cont_refl. auto.
Qed.

Lemma Math_max_min_same : forall B x,
  small B (Prim2SF x) -> JS.Math_max x x = x /\ JS.Math_min x x = x.
Proof.
  intros B x Hx. destruct (small_not_nan B x Hx) as (Hn & Hl).
  unfold JS.Math_max, JS.Math_min. rewrite Hn, Hl. cbn [orb].
  destruct (PrimFloat.get_sign x); auto.
Qed.

End FloatFacts.

(** ** The colour utilities on doubles *)

Module ColorFacts.

Import Colors Colors.ThemeUtils HexFacts FloatFacts.

Definition bytes : list Z := map Z.of_nat (seq 0 256).

Lemma forall_bytes : forall P : Z -> bool,
  forallb P bytes = true -> forall n, 0 <= n <= 255 -> P n = true.
Proof.
  intros P H n Hn. rewrite forallb_forall in H. apply H.
  unfold bytes. replace n with (Z.of_nat (Z.to_nat n)) by lia.
  apply in_map, in_seq. lia.
Qed.

Lemma alpha_hex_byte : forall n,
  0 <= n <= 255 ->
  JS.toUpperCase (JS.padStart 2 "0" (JS.toString16 (JS.Int n)))
    = JS.toUpperCase (hex2 n) /\
  JS.parseInt16 (JS.toUpperCase (hex2 n)) = JS.Int n.
Proof.
  intros n Hn.
  pose (P := fun n =>
     (JS.toUpperCase (JS.padStart 2 "0" (JS.toString16 (JS.Int n)))
      =? JS.toUpperCase (hex2 n))%string &&
     match JS.parseInt16 (JS.toUpperCase (hex2 n)) with
     | JS.Int z => z =? n
     | _ => false
     end).
  assert (H : P n = true) by (apply forall_bytes; [vm_compute; reflexivity|exact Hn]).
  unfold P in H. apply andb_true_iff in H as (H1 & H2).
  apply String.eqb_eq in H1. split; [exact H1|].
  destruct (JS.parseInt16 (JS.toUpperCase (hex2 n))); try discriminate.
  apply Z.eqb_eq in H2. congruence.
Qed.

(** X1. For every colour text [c] (a valid hex colour or not): for
    every double [alpha] with [0 <= alpha <= 1], [Math.round(alpha * 255)]
    is an integer [n] from 0 to 255 and [addAlpha c alpha] is [c]
    followed by the two upper-case hexadecimal digits of [n], zero
    padded (text that reads back as [n]); [addAlpha c 0] is [c] followed
    by [00], [addAlpha c 1] is [c] followed by [FF], and
    [addAlpha "#FF0000" 0.5] is [#FF000080]. *)
Theorem addAlpha_suffix : forall c,
  (forall alpha,
      (0 <=? alpha)%float = true -> (alpha <=? 1)%float = true ->
      exists n,
        JS.Math_round (alpha * 255)%float = JS.Int n /\ 0 <= n <= 255 /\
        addAlpha c alpha = (c ++ JS.toUpperCase (hex2 n))%string /\
        String.length (JS.toUpperCase (hex2 n)) = 2%nat /\
        JS.parseInt16 (JS.toUpperCase (hex2 n)) = JS.Int n) /\
  addAlpha c 0 = (c ++ "00")%string /\
  addAlpha c 1 = (c ++ "FF")%string /\
  addAlpha "#FF0000" 0.5 = "#FF000080"%string.
Proof.
  intros c. split; [|repeat split; reflexivity].
  intros alpha H0 H1.
  destruct (round_alpha_255 alpha H0 H1) as (n & Hround & Hn).
  destruct (alpha_hex_byte n Hn) as (Hhex & Hback).
  exists n. split; [exact Hround|]. split; [exact Hn|].
  split; [|split; [reflexivity|exact Hback]].
  unfold addAlpha. rewrite Hround, Hhex. reflexivity.
Qed.

(** *** Luminance and contrast *)

Section WithMathPow.

Variable Math_pow : float -> float -> float.

(** What is asked of the platform's [Math.pow] with the exponent 2.4:
    on a base in [0, 1] its result is in [0, 1], and on the base 1 it
    is 1. *)
Hypothesis pow_unit_range : forall b,
  (0 <=? b)%float = true -> (b <=? 1)%float = true ->
  (0 <=? Math_pow b 2.4)%float = true /\ (Math_pow b 2.4 <=? 1)%float = true.

Hypothesis pow_one : Math_pow 1 2.4 = 1%float.

(** Every channel value linearises into [0, 1]. *)
Lemma linearize_small : forall r,
  0 <= r <= 255 -> small 1 (Prim2SF (linearize Math_pow (JS.float_of_Z r))).
Proof.
  intros r Hr.
  pose (P := fun r =>
     let c := (JS.float_of_Z r / 255)%float in
     if (c <=? 0.03928)%float
     then (0 <=? c / 12.92)%float && (c / 12.92 <=? 1)%float
     else (0 <=? (c + 0.055) / 1.055)%float
          && ((c + 0.055) / 1.055 <=? 1)%float).
  assert (H : P r = true) by (apply forall_bytes; [vm_compute; reflexivity|exact Hr]).
  unfold P in H. cbv zeta in H. unfold linearize.
  destruct (JS.float_of_Z r / 255 <=? 0.03928)%float;
    apply andb_true_iff in H as (H0 & H1).
  - apply unit_small; assumption.
  - destruct (pow_unit_range _ H0 H1). apply unit_small; assumption.
Qed.

(** The luminance of a valid colour is a non-negative finite double,
    and what [getContrastRatio] adds 0.05 to is finite and positive. *)
Lemma luminance_finite : forall c,
  valid_hex_color c = true ->
  small 6 (Prim2SF (getLuminance Math_pow c)) /\
  exists m e,
    Prim2SF (getLuminance Math_pow c + 0.05)%float = S754_finite false m e.
Proof.
  intros c Hvalid.
  assert (Hch : exists r g b,
             (0 <= r <= 255 /\ 0 <= g <= 255 /\ 0 <= b <= 255) /\
             getLuminance Math_pow c
             = (0.2126 * linearize Math_pow (JS.float_of_Z r)
                + 0.7152 * linearize Math_pow (JS.float_of_Z g)
                + 0.0722 * linearize Math_pow (JS.float_of_Z b))%float).
  { destruct (valid_hex_color_inv c Hvalid)
      as (c1 & c2 & c3 & c4 & c5 & c6 & v1 & v2 & v3 & v4 & v5 & v6 &
          -> & H1 & H2 & H3 & H4 & H5 & H6).
    pose proof (hex_digit_facts _ _ H1) as (B1 & _).
    pose proof (hex_digit_facts _ _ H2) as (B2 & _).
    pose proof (hex_digit_facts _ _ H3) as (B3 & _).
    pose proof (hex_digit_facts _ _ H4) as (B4 & _).
    pose proof (hex_digit_facts _ _ H5) as (B5 & _).
    pose proof (hex_digit_facts _ _ H6) as (B6 & _).
    exists (16 * v1 + v2), (16 * v3 + v4), (16 * v5 + v6).
    split; [lia|].
    unfold getLuminance. rewrite slice_1_cons.
    rewrite (parseInt16_six_digits _ _ _ _ _ _ _ _ _ _ _ _ H1 H2 H3 H4 H5 H6).
    destruct (channels_of_number (16 * v1 + v2) (16 * v3 + v4) (16 * v5 + v6))
      as (_ & -> & -> & -> & _); try lia.
    reflexivity. }
  destruct Hch as (r & g & b & (Hr & Hg & Hb) & ->).
  pose proof (linearize_small r Hr) as Sr.
  pose proof (linearize_small g Hg) as Sg.
  pose proof (linearize_small b Hb) as Sb.
  assert (K1 : small 0 (Prim2SF 0.2126))
    by (vm_compute; intros Hc; discriminate Hc).
  assert (K2 : small 0 (Prim2SF 0.7152))
    by (vm_compute; intros Hc; discriminate Hc).
  assert (K3 : small 0 (Prim2SF 0.0722))
    by (vm_compute; intros Hc; discriminate Hc).
  assert (HB : -1074 <= 0 + 1 <= 973) by lia.
  pose proof (mul_small _ _ 0 1 K1 Sr HB) as P1.
  pose proof (mul_small _ _ 0 1 K2 Sg HB) as P2.
  pose proof (mul_small _ _ 0 1 K3 Sb HB) as P3.
  change (0 + 1 + 1) with 2 in P1, P2, P3.
  assert (S12 : small 4 (Prim2SF (0.2126 * linearize Math_pow (JS.float_of_Z r)
                                  + 0.7152 * linearize Math_pow (JS.float_of_Z g))))
    by (apply (add_small _ _ 2 P1 P2); lia).
  assert (P3' : small 4 (Prim2SF (0.0722 * linearize Math_pow (JS.float_of_Z b))))
    by (apply (small_le 2 4 _ P3); lia).
  assert (S123 : small 6
            (Prim2SF (0.2126 * linearize Math_pow (JS.float_of_Z r)
                      + 0.7152 * linearize Math_pow (JS.float_of_Z g)
                      + 0.0722 * linearize Math_pow (JS.float_of_Z b))))
    by (apply (add_small _ _ 4 S12 P3'); lia).
  split; [exact S123|].
  apply (add_finite_pos _ 0.05%float 7205759403792794 (-57) 6);
    [exact S123|reflexivity|vm_compute; intros Hc; discriminate Hc|lia].
Qed.

(** X2. With a [Math.pow] that maps a base in [0, 1] into [0, 1] and
    the base 1 to 1 (exponent 2.4): for every valid hex colour [c],
    [getContrastRatio c c] is exactly 1, and
    [getContrastRatio "#000000" "#FFFFFF"] is exactly 21. *)
Theorem contrast_ratio_identical_and_extreme :
  (forall c, valid_hex_color c = true ->
             getContrastRatio Math_pow c c = 1%float) /\
  getContrastRatio Math_pow "#000000" "#FFFFFF" = 21%float.
Proof.
  split.
  - intros c Hvalid.
    destruct (luminance_finite c Hvalid) as (HL & m & e & Hx).
    unfold getContrastRatio.
    destruct (Math_max_min_same _ _ HL) as (-> & ->).
    exact (div_self _ _ _ _ Hx).
  - assert (Lb : getLuminance Math_pow "#000000" = 0%float)
      by (vm_compute; reflexivity).
    assert (Lw : getLuminance Math_pow "#FFFFFF" = 1%float).
    { vm_compute. rewrite pow_one. vm_compute. reflexivity. }
    unfold getContrastRatio. rewrite Lb, Lw. reflexivity.
Qed.

End WithMathPow.

Lemma contrast_ratio_identical_and_extreme_witness :
  (forall c, valid_hex_color c = true ->
             getContrastRatio (fun b _ => b) c c = 1%float) /\
  getContrastRatio (fun b _ => b) "#000000" "#FFFFFF" = 21%float.
Proof.
  apply (contrast_ratio_identical_and_extreme (fun b _ => b)).
  - intros b H0 H1. split; assumption.
  - reflexivity.
Defined.

End ColorFacts.

(** ** More on [adjustBrightness] *)

Module BrightnessFacts.

Import Colors Colors.ThemeUtils HexFacts.

(** Whatever the text and the percentage, the function writes three
    clamped channels. *)
Lemma adjustBrightness_any : forall hex percent,
  exists r g b,
    (0 <= r <= 255 /\ 0 <= g <= 255 /\ 0 <= b <= 255) /\
    adjustBrightness hex percent
    = String "#" (hex2 r ++ hex2 g ++ hex2 b)%string.
Proof.
  intros hex percent. unfold adjustBrightness.
  set (num := JS.parseInt16 (JS.slice 1 hex)).
  set (amt := JS.Math_round (2.55 * percent)%float).
  destruct (clamp_spec (JS.add (JS.Int (JS.sar num 16)) amt))
    as (r & -> & Hr & _).
  destruct (clamp_spec
              (JS.add (JS.Int (JS.band (JS.Int (JS.sar num 8)) (JS.Int 255))) amt))
    as (g & -> & Hg & _).
  destruct (clamp_spec (JS.add (JS.Int (JS.band num (JS.Int 255))) amt))
    as (b & -> & Hb & _).
  exists r, g, b. split; [auto|].
  cbn [JS.add JS.mul]. rewrite toString16_rgb by assumption. reflexivity.
Qed.

Lemma hex2_lower : forall n,
  0 <= n <= 255 -> JS.toLowerCase (hex2 n) = hex2 n.
Proof.
  intros n Hn. destruct (byte_digits n Hn) as (H1 & H2 & _).
  unfold hex2, JS.toLowerCase. cbn [JS.map_string].
  rewrite !hex_digit_char_lower by assumption. reflexivity.
Qed.

Lemma toLowerCase_app : forall s t,
  JS.toLowerCase (s ++ t) = (JS.toLowerCase s ++ JS.toLowerCase t)%string.
Proof.
  induction s as [|c s IH]; intros t; [reflexivity|].
  cbn [append]. unfold JS.toLowerCase in *. cbn [JS.map_string].
  rewrite IH. reflexivity.
Qed.

(** With an amount of zero a colour written from three bytes comes back
    as it is. *)
Lemma adjustBrightness_zero_fixed : forall r g b,
  0 <= r <= 255 -> 0 <= g <= 255 -> 0 <= b <= 255 ->
  adjustBrightness (String "#" (hex2 r ++ hex2 g ++ hex2 b)) 0
  = String "#" (hex2 r ++ hex2 g ++ hex2 b)%string.
Proof.
  intros r g b Hr Hg Hb.
  destruct (rgb_text_channels r g b Hr Hg Hb) as (Hvalid & Hch).
  cbv zeta in Hvalid, Hch.
  destruct (adjustBrightness_unfolded _ 0 Hvalid)
    as (r0 & g0 & b0 & r' & g' & b' & Hch' & _ & _ & Cr & Cg & Cb & ->).
  rewrite Hch in Hch'. injection Hch' as <- <- <-.
  change (JS.Math_round (2.55 * 0)%float) with (JS.Int 0) in Cr, Cg, Cb.
  cbn [JS.add] in Cr, Cg, Cb.
  assert (Hsame : forall x x', 0 <= x <= 255 ->
                    clamp (JS.Int (x + 0)) = JS.Int x' -> x' = x).
  { intros x x' Hx Hc.
    destruct (clamp_spec (JS.Int (x + 0))) as (z & Hz & _ & Hcases).
    rewrite Hz in Hc. injection Hc as <-.
    destruct (Hcases (x + 0) eq_refl) as (C1 & C2 & C3). lia. }
  apply Hsame in Cr, Cg, Cb; try assumption. subst. reflexivity.
Qed.


End BrightnessFacts.


(** ** [adjustBrightness]: what it depends on, and its extremes *)

Module BrightnessExtremes.

Import Colors Colors.ThemeUtils HexFacts.

Lemma valid_parse : forall c,
  valid_hex_color c = true ->
  exists r g b,
    (0 <= r <= 255 /\ 0 <= g <= 255 /\ 0 <= b <= 255) /\
    channels c = (r, g, b) /\
    JS.parseInt16 (JS.slice 1 c) = JS.Int (65536 * r + 256 * g + b).
Proof.
  intros c Hvalid.
  destruct (valid_hex_color_inv c Hvalid)
    as (c1 & c2 & c3 & c4 & c5 & c6 & v1 & v2 & v3 & v4 & v5 & v6 &
        -> & H1 & H2 & H3 & H4 & H5 & H6).
  pose proof (hex_digit_facts _ _ H1) as (B1 & _).
  pose proof (hex_digit_facts _ _ H2) as (B2 & _).
  pose proof (hex_digit_facts _ _ H3) as (B3 & _).
  pose proof (hex_digit_facts _ _ H4) as (B4 & _).
  pose proof (hex_digit_facts _ _ H5) as (B5 & _).
  pose proof (hex_digit_facts _ _ H6) as (B6 & _).
  exists (16 * v1 + v2), (16 * v3 + v4), (16 * v5 + v6).
  split; [lia|].
  unfold channels. rewrite slice_1_cons.
  rewrite (parseInt16_six_digits _ _ _ _ _ _ _ _ _ _ _ _ H1 H2 H3 H4 H5 H6).
  destruct (channels_of_number (16 * v1 + v2) (16 * v3 + v4) (16 * v5 + v6))
    as (_ & -> & -> & _ & ->); try lia.
  split; reflexivity.
Qed.

Lemma hex_digit_case : forall c v,
  JS.hex_digit_value c = Some v ->
  JS.hex_digit_value (JS.lower_char c) = Some v /\
  JS.hex_digit_value (JS.upper_char c) = Some v.
Proof.
  intros c v H.
  each_char c; vm_compute in H; try discriminate H;
    injection H as <-; vm_compute; split; reflexivity.
Qed.

Lemma case_keeps_colour : forall c,
  valid_hex_color c = true ->
  (valid_hex_color (JS.toLowerCase c) = true /\
   channels (JS.toLowerCase c) = channels c) /\
  (valid_hex_color (JS.toUpperCase c) = true /\
   channels (JS.toUpperCase c) = channels c).
Proof.
  intros c Hvalid.
  destruct (valid_hex_color_inv c Hvalid)
    as (c1 & c2 & c3 & c4 & c5 & c6 & v1 & v2 & v3 & v4 & v5 & v6 &
        -> & H1 & H2 & H3 & H4 & H5 & H6).
  destruct (hex_digit_case _ _ H1) as (L1 & U1).
  destruct (hex_digit_case _ _ H2) as (L2 & U2).
  destruct (hex_digit_case _ _ H3) as (L3 & U3).
  destruct (hex_digit_case _ _ H4) as (L4 & U4).
  destruct (hex_digit_case _ _ H5) as (L5 & U5).
  destruct (hex_digit_case _ _ H6) as (L6 & U6).
  unfold JS.toLowerCase, JS.toUpperCase. cbn [JS.map_string].
  change (JS.lower_char "#") with "#"%char.
  change (JS.upper_char "#") with "#"%char.
  unfold channels. rewrite !slice_1_cons.
  rewrite (parseInt16_six_digits _ _ _ _ _ _ _ _ _ _ _ _ H1 H2 H3 H4 H5 H6).
  rewrite (parseInt16_six_digits _ _ _ _ _ _ _ _ _ _ _ _ L1 L2 L3 L4 L5 L6).
  rewrite (parseInt16_six_digits _ _ _ _ _ _ _ _ _ _ _ _ U1 U2 U3 U4 U5 U6).
  cbn [valid_hex_color forallb]. unfold is_hex_digit.
  rewrite L1, L2, L3, L4, L5, L6, U1, U2, U3, U4, U5, U6. auto.
Qed.

(** X4. The result of [adjustBrightness] on a valid colour depends on
    the three channel values only: two valid colours with the same
    channels give the same result, so the letter case of the input
    digits never matters. *)
Theorem adjustBrightness_reads_channels_only : forall c c' percent,
  valid_hex_color c = true -> valid_hex_color c' = true ->
  channels c = channels c' ->
  adjustBrightness c percent = adjustBrightness c' percent /\
  adjustBrightness (JS.toLowerCase c) percent = adjustBrightness c percent /\
  adjustBrightness (JS.toUpperCase c) percent = adjustBrightness c percent.
Proof.
  assert (Hmain : forall c c' percent,
            valid_hex_color c = true -> valid_hex_color c' = true ->
            channels c = channels c' ->
            adjustBrightness c percent = adjustBrightness c' percent).
  { intros c c' percent Hc Hc' Hch.
    destruct (valid_parse c Hc) as (r & g & b & _ & Ech & Ep).
    destruct (valid_parse c' Hc') as (r' & g' & b' & _ & Ech' & Ep').
    rewrite Ech, Ech' in Hch. injection Hch as <- <- <-.
    unfold adjustBrightness. rewrite Ep, Ep'. reflexivity. }
  intros c c' percent Hc Hc' Hch.
  destruct (case_keeps_colour c Hc) as ((VL & CL) & (VU & CU)).
  split; [apply Hmain; assumption|]. split; apply Hmain; assumption.
Qed.

Lemma adjustBrightness_reads_channels_only_witness :
  adjustBrightness "#3F51B5" 20 = adjustBrightness "#3f51b5" 20 /\
  adjustBrightness (JS.toLowerCase "#3F51B5") 20 = adjustBrightness "#3F51B5" 20 /\
  adjustBrightness (JS.toUpperCase "#3F51B5") 20 = adjustBrightness "#3F51B5" 20.
Proof.
  exact (adjustBrightness_reads_channels_only "#3F51B5" "#3f51b5" 20
           eq_refl eq_refl eq_refl).
Defined.

(** X5. An amount of 255 or more turns every valid colour into white
    and an amount of -255 or less into black; [percent = 100] and
    [percent = -100] are such amounts. *)
Theorem adjustBrightness_saturates : forall c percent a,
  valid_hex_color c = true ->
  JS.Math_round (2.55 * percent)%float = JS.Int a ->
  (255 <= a -> adjustBrightness c percent = "#ffffff") /\
  (a <= -255 -> adjustBrightness c percent = "#000000") /\
  JS.Math_round (2.55 * 100)%float = JS.Int 255 /\
  JS.Math_round (2.55 * -100)%float = JS.Int (-255).
Proof.
  intros c percent a Hvalid Ha.
  destruct (adjustBrightness_unfolded c percent Hvalid)
    as (r & g & b & r' & g' & b' & _ & (Hr & Hg & Hb) & _ & Cr & Cg & Cb & ->).
  rewrite Ha in Cr, Cg, Cb. cbn [JS.add] in Cr, Cg, Cb.
  assert (Hc : forall x x', clamp (JS.Int (x + a)) = JS.Int x' ->
            (x + a < 1 -> x' = 0) /\ (255 <= x + a -> x' = 255)).
  { intros x x' Hx.
    destruct (clamp_spec (JS.Int (x + a))) as (z & Hz & _ & Hcases).
    rewrite Hz in Hx. injection Hx as <-.
    destruct (Hcases (x + a) eq_refl) as (C1 & C2 & _). auto. }
  destruct (Hc _ _ Cr) as (R0 & R1).
  destruct (Hc _ _ Cg) as (G0 & G1).
  destruct (Hc _ _ Cb) as (B0 & B1).
  split; [|split; [|split; reflexivity]].
  - intros Hhigh. rewrite R1, G1, B1 by lia. reflexivity.
  - intros Hlow. rewrite R0, G0, B0 by lia. reflexivity.
Qed.

Lemma adjustBrightness_saturates_witness :
  (255 <= 255 -> adjustBrightness "#3F51B5" 100 = "#ffffff") /\
  (255 <= -255 -> adjustBrightness "#3F51B5" 100 = "#000000") /\
  JS.Math_round (2.55 * 100)%float = JS.Int 255 /\
  JS.Math_round (2.55 * -100)%float = JS.Int (-255).
Proof.
  exact (adjustBrightness_saturates "#3F51B5" 100 255 eq_refl eq_refl).
Defined.



End BrightnessExtremes.


Module ShorthandFacts.

Import Colors Colors.ThemeUtils HexFacts.

(** X7. A three-digit colour [#abc] is not expanded as CSS would
    ([#aabbcc]): its digits are read as the low twelve bits, so the red
    channel is 0, the green channel is [a] and the blue channel is
    [16 * b + c]; [adjustBrightness] by zero writes it back as
    [#000abc]. *)
Theorem shorthand_is_not_expanded : forall c1 c2 c3 v1 v2 v3,
  JS.hex_digit_value c1 = Some v1 ->
  JS.hex_digit_value c2 = Some v2 ->
  JS.hex_digit_value c3 = Some v3 ->
  let hex := String "#" (String c1 (String c2 (String c3 ""))) in
  valid_hex_color hex = false /\
  channels hex = (0, v1, 16 * v2 + v3) /\
  adjustBrightness hex 0
  = String "#" (hex2 0 ++ hex2 v1 ++ hex2 (16 * v2 + v3))%string.
Proof.
  intros c1 c2 c3 v1 v2 v3 H1 H2 H3 hex. subst hex.
  pose proof (hex_digit_facts _ _ H1) as (B1 & _).
  pose proof (hex_digit_facts _ _ H2) as (B2 & _).
  pose proof (hex_digit_facts _ _ H3) as (B3 & _).
  assert (Hp : JS.parseInt16 (String c1 (String c2 (String c3 "")))
               = JS.Int (65536 * 0 + 256 * v1 + (16 * v2 + v3))).
  { rewrite (parseInt16_two_digits _ _ _ _ _ H1 H2).
    cbn [JS.hex_prefix]. rewrite H3. f_equal. lia. }
  destruct (channels_of_number 0 v1 (16 * v2 + v3))
    as (S16 & K16 & K8 & _ & K0); try lia.
  cbv zeta in S16, K16, K8, K0.
  split; [reflexivity|]. split.
  - unfold channels. rewrite slice_1_cons, Hp, K16, K8, K0. reflexivity.
  - unfold adjustBrightness. rewrite slice_1_cons, Hp, S16, K8, K0.
    change (JS.Math_round (2.55 * 0)%float) with (JS.Int 0). cbn [JS.add].
    assert (Hsame : forall x, 0 <= x <= 255 -> clamp (JS.Int (x + 0)) = JS.Int x).
    { intros x Hx.
      destruct (clamp_spec (JS.Int (x + 0))) as (z & Hz & _ & Hcases).
      rewrite Hz. f_equal.
      destruct (Hcases (x + 0) eq_refl) as (C1 & C2 & C3). lia. }
    rewrite !Hsame by lia. cbn [JS.add JS.mul].
    rewrite toString16_rgb by lia. reflexivity.
Qed.

Lemma shorthand_is_not_expanded_witness :
  valid_hex_color "#FFF" = false /\
  channels "#FFF" = (0, 15, 16 * 15 + 15) /\
  adjustBrightness "#FFF" 0
  = String "#" (hex2 0 ++ hex2 15 ++ hex2 (16 * 15 + 15))%string.
Proof.
  exact (shorthand_is_not_expanded "F" "F" "F" 15 15 15 eq_refl eq_refl eq_refl).
Defined.

End ShorthandFacts.


(** ** The contrast ratio does not depend on the order of its arguments *)

Module ContrastSymmetry.

Import Colors Colors.ThemeUtils.

Lemma SFcompare_antisym : forall a b,
  SFcompare b a = option_map CompOpp (SFcompare a b).
Proof.
  intros [sa|sa| |sa ma ea] [sb|sb| |sb mb eb]; cbn [SFcompare option_map];
    try reflexivity;
    try (destruct sa; reflexivity); try (destruct sb; reflexivity);
    try (destruct sa, sb; reflexivity).
  destruct sa, sb; cbn [CompOpp]; try reflexivity;
    rewrite (Z.compare_antisym ea eb);
    destruct (ea ?= eb); cbn [CompOpp]; try reflexivity;
    rewrite (Pos.compare_cont_antisym ma mb Eq); cbn [CompOpp];
    try rewrite CompOpp_involutive; reflexivity.
Qed.

Lemma SFcompare_Eq : forall a b,
  SFcompare a b = Some Eq ->
  a = b \/ exists s t, a = S754_zero s /\ b = S754_zero t.
Proof.
  intros [sa|sa| |sa ma ea] [sb|sb| |sb mb eb] H; cbn [SFcompare] in H;
    try discriminate H;
    try (right; eauto; fail);
    try (destruct sa; discriminate H);
    try (destruct sb; discriminate H);
    try (destruct sa, sb; try discriminate H; left; reflexivity).
  destruct sa, sb; try discriminate H;
    destruct (Z.compare_spec ea eb) as [->| |]; try discriminate H;
    left; f_equal; apply Pos.compare_eq; unfold Pos.compare;
    destruct (Pos.compare_cont Eq ma mb); try discriminate H; reflexivity.
Qed.

Lemma not_nan_spec : forall x,
  PrimFloat.is_nan x = false -> Prim2SF x <> S754_nan.
Proof.
  intros x H Hx. unfold PrimFloat.is_nan in H. rewrite eqb_spec, Hx in H.
  discriminate H.
Qed.

Lemma zero_cases : forall x s,
  Prim2SF x = S754_zero s -> x = 0%float \/ x = (-0)%float.
Proof.
  intros x s Hx. rewrite <- (SF2Prim_Prim2SF x), Hx.
  destruct s; [right|left]; reflexivity.
Qed.

(** [Math.max] and [Math.min] are symmetric, signed zeros included. *)
Lemma Math_max_min_comm : forall x y,
  JS.Math_max x y = JS.Math_max y x /\ JS.Math_min x y = JS.Math_min y x.
Proof.
  intros x y. unfold JS.Math_max, JS.Math_min.
  rewrite (orb_comm (PrimFloat.is_nan y)).
  destruct (PrimFloat.is_nan x) eqn:Nx; [auto|].
  destruct (PrimFloat.is_nan y) eqn:Ny; [auto|]. cbn [orb].
  pose proof (not_nan_spec x Nx) as Hx. pose proof (not_nan_spec y Ny) as Hy.
  pose proof (SFcompare_antisym (Prim2SF x) (Prim2SF y)) as Hanti.
  rewrite !ltb_spec. unfold SFltb. rewrite Hanti.
  destruct (SFcompare (Prim2SF x) (Prim2SF y)) as [[| |]|] eqn:Hc;
    cbn [option_map CompOpp]; auto.
  - destruct (SFcompare_Eq _ _ Hc) as [Heq|(s & t & Hs & Ht)].
    + apply Prim2SF_inj in Heq. subst y. auto.
    + destruct (zero_cases x s Hs) as [-> | ->],
               (zero_cases y t Ht) as [-> | ->]; auto.
  - exfalso. destruct (Prim2SF x), (Prim2SF y); cbn in Hc;
      congruence.
Qed.

(** X8. [getContrastRatio] is symmetric, and so is
    [meetsAccessibilityStandards]: foreground and background can be
    given in either order, for every two texts and whatever [Math.pow]
    returns. *)
Theorem contrast_ratio_symmetric : forall Math_pow a b,
  getContrastRatio Math_pow a b = getContrastRatio Math_pow b a /\
  meetsAccessibilityStandards Math_pow a b
  = meetsAccessibilityStandards Math_pow b a.
Proof.
  intros Math_pow a b.
  assert (H : getContrastRatio Math_pow a b = getContrastRatio Math_pow b a).
  { unfold getContrastRatio.
    destruct (Math_max_min_comm (getLuminance Math_pow a)
                (getLuminance Math_pow b)) as (-> & ->).
    reflexivity. }
  split; [exact H|]. unfold meetsAccessibilityStandards. rewrite H. reflexivity.
Qed.

End ContrastSymmetry.


(** ** Persistence: what toggles leave in the store, and what a later
    start reads back *)

Module PersistenceFacts.

Import Colors ThemeContext ResolverFacts.

(** The world after [toggleTheme()]. *)
Lemma toggle_step : forall scheme w now,
  step scheme w (ToggleTheme now)
  = Some {| st_isDark := JS.boolean (negb (JS.ToBoolean (st_isDark w)));
            st_isLoading := st_isLoading w;
            stage := stage w;
            disk := disk w;
            inflight :=
              (inflight w ++
               [(THEME_STORAGE_KEY,
                 stringify_preference
                   (JS.boolean (negb (JS.ToBoolean (st_isDark w)))) now)])%list;
            console := console w |}.
Proof. reflexivity. Qed.

(** A fresh start on a store that holds a record written by
    [saveThemePreference], with a read that succeeds. *)
Lemma reload_record : forall scheme stored v now,
  stored THEME_STORAGE_KEY = Some (stringify_preference v now) ->
  exists w,
    run scheme (mount scheme stored) [StoreAnswersRead true; LoadResumes]
    = Some w /\
    st_isDark w = v /\ st_isLoading w = false /\ console w = [] /\
    inflight w = [].
Proof.
  intros scheme stored v now Hs. cbn. rewrite Hs. cbn.
  eexists. split; [reflexivity|]. cbn. auto.
Qed.

(** X9. What a toggle persists is what the next start shows. After a
    toggle whose write lands, a component mounted afresh on that store
    (whatever the platform scheme then is) and whose read succeeds ends
    its load with the toggled value, loading finished and nothing
    logged; after two toggles whose writes land in the order of the
    calls it ends with the value of the second. *)
Theorem persisted_toggle_is_reloaded : forall scheme scheme' w now now',
  let n := List.length (inflight w) in
  let first := JS.boolean (negb (JS.ToBoolean (st_isDark w))) in
  let second := JS.boolean (JS.ToBoolean (st_isDark w)) in
  (exists w1 w2,
     run scheme w [ToggleTheme now; WriteSettles n true] = Some w1 /\
     run scheme' (mount scheme' (disk w1)) [StoreAnswersRead true; LoadResumes]
     = Some w2 /\
     st_isDark w2 = first /\ st_isLoading w2 = false /\ console w2 = []) /\
  (exists w1 w2,
     run scheme w [ToggleTheme now; WriteSettles n true;
                   ToggleTheme now'; WriteSettles n true] = Some w1 /\
     run scheme' (mount scheme' (disk w1)) [StoreAnswersRead true; LoadResumes]
     = Some w2 /\
     st_isDark w1 = second /\
     st_isDark w2 = second /\ st_isLoading w2 = false /\ console w2 = []).
Proof.
  intros scheme scheme' w now now' n first second.
  set (r1 := stringify_preference first now).
  pose (wa := {| st_isDark := first; st_isLoading := st_isLoading w;
                 stage := stage w; disk := disk w;
                 inflight := (inflight w ++ [(THEME_STORAGE_KEY, r1)])%list;
                 console := console w |}).
  pose (wb := {| st_isDark := first; st_isLoading := st_isLoading w;
                 stage := stage w;
                 disk := setItem THEME_STORAGE_KEY r1 (disk w);
                 inflight := inflight w; console := console w |}).
  assert (Hab : step scheme wa (WriteSettles n true) = Some wb).
  { cbn [step]. subst n.
    rewrite (settle_last_write wa (inflight w) THEME_STORAGE_KEY r1 true eq_refl).
    reflexivity. }
  split.
  - destruct (reload_record scheme' (disk wb) first now eq_refl)
      as (w2 & Hrun & Hd & Hl & Hc & _).
    exists wb, w2. cbn [run]. rewrite toggle_step. fold first r1 wa.
    rewrite Hab. repeat split; assumption.
  - set (r2 := stringify_preference second now').
    pose (wc := {| st_isDark := second; st_isLoading := st_isLoading w;
                   stage := stage w;
                   disk := setItem THEME_STORAGE_KEY r1 (disk w);
                   inflight := (inflight w ++ [(THEME_STORAGE_KEY, r2)])%list;
                   console := console w |}).
    pose (wd := {| st_isDark := second; st_isLoading := st_isLoading w;
                   stage := stage w;
                   disk := setItem THEME_STORAGE_KEY r2
                             (setItem THEME_STORAGE_KEY r1 (disk w));
                   inflight := inflight w; console := console w |}).
    assert (Hbc : step scheme wb (ToggleTheme now') = Some wc).
    { rewrite toggle_step. subst wc wb first second r2. cbn.
      rewrite negb_involutive. reflexivity. }
    assert (Hcd : step scheme wc (WriteSettles n true) = Some wd).
    { cbn [step]. subst n.
      rewrite (settle_last_write wc (inflight w) THEME_STORAGE_KEY r2 true eq_refl).
      reflexivity. }
    destruct (reload_record scheme' (disk wd) second now' eq_refl)
      as (w2 & Hrun & Hd & Hl & Hc & _).
    exists wd, w2. cbn [run]. rewrite toggle_step. fold first r1 wa.
    rewrite Hab, Hbc, Hcd. repeat split; assumption.
Qed.

(** X10. Two toggles in a row bring the in-memory value back to the
    truthiness it had, but when the store serves the second write
    before the first, the store is left with the record of the first
    toggle: memory and store disagree, and the next start shows the
    stale value. *)
Theorem reordered_writes_leave_stale_record : forall scheme scheme' w now now',
  let n := List.length (inflight w) in
  let first := JS.boolean (negb (JS.ToBoolean (st_isDark w))) in
  let second := JS.boolean (JS.ToBoolean (st_isDark w)) in
  exists w1 w2,
    run scheme w [ToggleTheme now; ToggleTheme now';
                  WriteSettles (S n) true; WriteSettles n true] = Some w1 /\
    st_isDark w1 = second /\
    disk w1 THEME_STORAGE_KEY = Some (stringify_preference first now) /\
    inflight w1 = inflight w /\
    first <> second /\
    run scheme' (mount scheme' (disk w1)) [StoreAnswersRead true; LoadResumes]
    = Some w2 /\
    st_isDark w2 = first.
Proof.
  intros scheme scheme' w now now' n first second.
  set (r1 := stringify_preference first now).
  set (r2 := stringify_preference second now').
  pose (wa := {| st_isDark := first; st_isLoading := st_isLoading w;
                 stage := stage w; disk := disk w;
                 inflight := (inflight w ++ [(THEME_STORAGE_KEY, r1)])%list;
                 console := console w |}).
  pose (wb := {| st_isDark := second; st_isLoading := st_isLoading w;
                 stage := stage w; disk := disk w;
                 inflight := ((inflight w ++ [(THEME_STORAGE_KEY, r1)])
                              ++ [(THEME_STORAGE_KEY, r2)])%list;
                 console := console w |}).
  pose (wc := {| st_isDark := second; st_isLoading := st_isLoading w;
                 stage := stage w;
                 disk := setItem THEME_STORAGE_KEY r2 (disk w);
                 inflight := (inflight w ++ [(THEME_STORAGE_KEY, r1)])%list;
                 console := console w |}).
  pose (wd := {| st_isDark := second; st_isLoading := st_isLoading w;
                 stage := stage w;
                 disk := setItem THEME_STORAGE_KEY r1
                           (setItem THEME_STORAGE_KEY r2 (disk w));
                 inflight := inflight w; console := console w |}).
  assert (Hab : step scheme wa (ToggleTheme now') = Some wb).
  { rewrite toggle_step. subst wa wb first second r2. cbn.
    rewrite negb_involutive. reflexivity. }
  assert (Hbc : step scheme wb (WriteSettles (S n) true) = Some wc).
  { cbn [step].
    replace (S n) with (List.length (inflight w ++ [(THEME_STORAGE_KEY, r1)]))
      by (rewrite length_app; cbn; subst n; lia).
    rewrite (settle_last_write wb _ THEME_STORAGE_KEY r2 true eq_refl).
    reflexivity. }
  assert (Hcd : step scheme wc (WriteSettles n true) = Some wd).
  { cbn [step]. subst n.
    rewrite (settle_last_write wc (inflight w) THEME_STORAGE_KEY r1 true eq_refl).
    reflexivity. }
  destruct (reload_record scheme' (disk wd) first now eq_refl)
    as (w2 & Hrun & Hd & _).
  exists wd, w2. cbn [run]. rewrite toggle_step. fold first r1 wa.
  rewrite Hab, Hbc, Hcd.
  repeat split; try assumption.
  subst first second. destruct (JS.ToBoolean (st_isDark w)); discriminate.
Qed.

End PersistenceFacts.


(** ** What every run keeps *)

Module ResolverInvariants.

Import Colors ThemeContext ResolverFacts.

Lemma Forall_trace : forall (P : world -> Prop) scheme,
  (forall w ev w', P w -> step scheme w ev = Some w' -> P w') ->
  forall evs w, P w -> Forall P (trace scheme w evs).
Proof.
  intros P scheme Hstep. induction evs as [|ev rest IH]; intros w Hw; cbn [trace].
  - constructor; [exact Hw|constructor].
  - constructor; [exact Hw|].
    destruct (step scheme w ev) as [w'|] eqn:Hs; [|constructor].
    apply IH. exact (Hstep _ _ _ Hw Hs).
Qed.

Lemma in_firstn : forall (A : Type) n (l : list A) x,
  In x (firstn n l) -> In x l.
Proof.
  induction n as [|n IH]; intros [|a l] x H; cbn in H; try contradiction.
  destruct H as [->|H]; [left; reflexivity|right; auto].
Qed.

Lemma in_skipn : forall (A : Type) n (l : list A) x,
  In x (skipn n l) -> In x l.
Proof.
  induction n as [|n IH]; intros [|a l] x H; cbn in H; try contradiction;
    try exact H.
  right. auto.
Qed.

Lemma settle_write_inv : forall w i ok w',
  settle_write w i ok = Some w' ->
  exists k t,
    In (k, t) (inflight w) /\
    (forall e, In e (inflight w') -> In e (inflight w)) /\
    disk w' = (if ok then setItem k t (disk w) else disk w).
Proof.
  unfold settle_write. intros w i ok w' H.
  destruct (nth_error (inflight w) i) as [[k t]|] eqn:Hn; [|discriminate].
  injection H as <-. exists k, t.
  split; [exact (nth_error_In _ _ Hn)|]. split.
  - intros e He.
    assert (He' : In e (firstn i (inflight w) ++ skipn (S i) (inflight w))%list)
      by (destruct ok; exact He).
    apply in_app_or in He' as [H1|H2].
    + exact (in_firstn _ _ _ _ H1).
    + exact (in_skipn _ _ _ _ H2).
  - destruct ok; reflexivity.
Qed.

(** The store is written under the one key only. *)
Definition only_own_key (stored : Storage) (w : world) : Prop :=
  (forall k, (k =? THEME_STORAGE_KEY)%string = false -> disk w k = stored k) /\
  (forall e, In e (inflight w) -> fst e = THEME_STORAGE_KEY).

Lemma step_only_own_key : forall stored scheme w ev w',
  only_own_key stored w -> step scheme w ev = Some w' -> only_own_key stored w'.
Proof.
  intros stored scheme w ev w' (Hd & Hi) Hstep.
  destruct ev as [ok| |now|i ok];
    [cbn [step] in Hstep | cbn [step] in Hstep | | cbn [step] in Hstep].
  - destruct (stage w); try discriminate. injection Hstep as <-. split; assumption.
  - destruct (stage w) eqn:Hs; try discriminate. injection Hstep as <-.
    destruct (load_resume_effects scheme r (set_stage w load_finished))
      as (_ & _ & Hdisk & Hinf).
    cbv zeta in Hdisk, Hinf. unfold only_own_key. rewrite Hdisk, Hinf.
    split; assumption.
  - rewrite PersistenceFacts.toggle_step in Hstep. injection Hstep as <-.
    split; [exact Hd|]. cbn [inflight]. intros e He.
    apply in_app_or in He as [He|[<-|[]]]; [auto|reflexivity].
  - destruct (settle_write_inv _ _ _ _ Hstep) as (k & t & Hin & Hsub & Hdisk).
    split.
    + intros k' Hk'. rewrite Hdisk. destruct ok; [|auto].
      unfold setItem. specialize (Hi _ Hin). cbn [fst] in Hi. subst k.
      rewrite Hk'. auto.
    + intros e He. auto.
Qed.

(** X11. The component touches the store under its one key only. In
    every world of every run from the mount, each other key holds what
    it held at the start, and every write still pending is a write under
    [@scanzy_theme_preference]. *)
Theorem store_touched_under_one_key_only : forall scheme stored evs,
  Forall
    (fun w =>
       (forall k, (k =? THEME_STORAGE_KEY)%string = false ->
                  disk w k = stored k) /\
       (forall e, In e (inflight w) -> fst e = "@scanzy_theme_preference"%string))
    (trace scheme (mount scheme stored) evs).
Proof.
  intros scheme stored evs.
  apply (Forall_trace (only_own_key stored) scheme).
  - intros w ev w'. apply step_only_own_key.
  - split; [reflexivity|]. intros e [].
Qed.

(** *** [isDark] stays a boolean *)

Definition is_boolean (v : JS.value) : bool :=
  match v with JS.boolean _ => true | _ => false end.

(** A stored text from which the load takes a boolean: one that does not
    parse (the load falls back), or JSON whose [isDark] is a boolean or
    cannot be read at all. *)
Definition loads_boolean (t : text) : bool :=
  match t with
  | empty_text | malformed => true
  | json v =>
      match JS.getProp v "isDark" with
      | Some x => is_boolean x
      | None => true
      end
  end.

Definition outcome_loads_boolean (r : read_outcome) : bool :=
  match r with
  | read_resolved (Some t) => loads_boolean t
  | _ => true
  end.

Definition boolean_world (w : world) : Prop :=
  is_boolean (st_isDark w) = true /\
  (forall k t, disk w k = Some t -> loads_boolean t = true) /\
  (forall e, In e (inflight w) -> loads_boolean (snd e) = true) /\
  (forall r, stage w = load_settled r -> outcome_loads_boolean r = true).

Lemma step_boolean_world : forall scheme w ev w',
  boolean_world w -> step scheme w ev = Some w' -> boolean_world w'.
Proof.
  intros scheme w ev w' (Hb & Hd & Hi & Hs) Hstep.
  destruct ev as [ok| |now|i ok];
    [cbn [step] in Hstep | cbn [step] in Hstep | | cbn [step] in Hstep].
  - destruct (stage w) eqn:Hst; try discriminate. injection Hstep as <-.
    repeat split; try assumption.
    cbn [stage set_stage]. intros r [= <-].
    destruct ok; [|reflexivity]. cbn [outcome_loads_boolean].
    destruct (disk w key) as [t|] eqn:Hk; [|reflexivity]. exact (Hd _ _ Hk).
  - destruct (stage w) eqn:Hst; try discriminate. injection Hstep as <-.
    specialize (Hs r eq_refl).
    destruct (load_resume_effects scheme r (set_stage w load_finished))
      as (_ & Hstage & Hdisk & Hinf).
    cbv zeta in Hstage, Hdisk, Hinf.
    unfold boolean_world. rewrite Hstage, Hdisk, Hinf.
    repeat split; try assumption; [|cbn; intros r' Hr'; discriminate Hr'].
    unfold loadThemePreference_resume.
    destruct r as [|[[| |v]|]]; cbn; try reflexivity.
    cbn in Hs. destruct (JS.getProp v "isDark") as [x|]; cbn; [exact Hs|reflexivity].
  - rewrite PersistenceFacts.toggle_step in Hstep. injection Hstep as <-.
    repeat split; try assumption. cbn [inflight]. intros e He.
    apply in_app_or in He as [He|[<-|[]]]; [auto|reflexivity].
  - destruct (settle_write_state _ _ _ _ Hstep) as (Hdark & _ & Hstage).
    destruct (settle_write_inv _ _ _ _ Hstep) as (k & t & Hin & Hsub & Hdisk).
    unfold boolean_world. rewrite Hdark, Hstage, Hdisk.
    repeat split; try assumption.
    + intros k' t' Hk'. destruct ok; [|eauto].
      unfold setItem in Hk'. destruct (k' =? k)%string; [|eauto].
      injection Hk' as <-. exact (Hi _ Hin).
    + intros e He. auto.
Qed.

(** X12. If every text the store holds at the start is one the load takes
    a boolean from (no text at all, text that does not parse, or a record
    whose [isDark] is a boolean, as [saveThemePreference] writes them),
    then [isDark] is a boolean in every world of every run, and so is
    the [isDark] handed to consumers. *)
Theorem isDark_stays_boolean : forall scheme stored evs,
  (forall k t, stored k = Some t -> loads_boolean t = true) ->
  Forall
    (fun w => exists b, st_isDark w = JS.boolean b /\
                        isDark (contextValue w) = JS.boolean b /\
                        theme (contextValue w)
                        = if b then darkTheme else lightTheme)
    (trace scheme (mount scheme stored) evs).
Proof.
  intros scheme stored evs Hstored.
  assert (H : Forall boolean_world (trace scheme (mount scheme stored) evs)).
  { apply Forall_trace.
    - intros w ev w'. apply step_boolean_world.
    - repeat split.
      + exact Hstored.
      + intros e [].
      + cbn. intros r Hr. discriminate Hr. }
  apply (Forall_impl _ (P := boolean_world)); [|exact H].
  intros w (Hb & _). destruct (st_isDark w) as [| |b| | | |] eqn:Hv;
    try discriminate Hb.
  exists b. unfold contextValue, render. cbn. rewrite Hv. auto.
Qed.

Lemma isDark_stays_boolean_witness :
  Forall
    (fun w => exists b, st_isDark w = JS.boolean b /\
                        isDark (contextValue w) = JS.boolean b /\
                        theme (contextValue w)
                        = if b then darkTheme else lightTheme)
    (trace scheme_dark (mount scheme_dark (fun _ => Some malformed))
       [ToggleTheme "2024-05-02T09:30:00.000Z"; StoreAnswersRead true;
        LoadResumes; WriteSettles 0 true]).
Proof.
  apply (isDark_stays_boolean scheme_dark (fun _ => Some malformed)).
  intros k t [= <-]. reflexivity.
Defined.

End ResolverInvariants.


(** ** Toggles in a row, and the single load *)

Module ResolverCounting.

Import Colors ThemeContext ResolverFacts.


Definition is_read_answer (ev : event) : bool :=
  match ev with StoreAnswersRead _ => true | _ => false end.

Definition count (p : event -> bool) (evs : list event) : nat :=
  List.length (filter p evs).

Definition answered (s : load_stage) : nat :=
  match s with load_settled _ | load_finished => 1 | _ => 0 end.

Definition resumed (s : load_stage) : nat :=
  match s with load_finished => 1 | _ => 0 end.

Lemma run_counts : forall scheme evs w w',
  run scheme w evs = Some w' ->
  (count is_read_answer evs + answered (stage w) = answered (stage w'))%nat /\
  (count is_load_resume evs + resumed (stage w) = resumed (stage w'))%nat.
Proof.
  induction evs as [|ev rest IH]; intros w w' Hrun; cbn [run] in Hrun.
  - injection Hrun as <-. split; reflexivity.
  - destruct (step scheme w ev) as [w1|] eqn:Hstep; [|discriminate].
    destruct (IH _ _ Hrun) as (IH1 & IH2). rewrite <- IH1, <- IH2.
    unfold count. cbn [filter].
    destruct ev as [ok| |now|i ok]; cbn [is_read_answer is_load_resume List.length].
    + cbn [step] in Hstep. destruct (stage w) eqn:Hs; try discriminate.
      injection Hstep as <-. cbn. lia.
    + cbn [step] in Hstep. destruct (stage w) eqn:Hs; try discriminate.
      injection Hstep as <-.
      destruct (load_resume_effects scheme r (set_stage w load_finished))
        as (_ & Hstage & _).
      cbv zeta in Hstage. rewrite Hstage. cbn. lia.
    + rewrite PersistenceFacts.toggle_step in Hstep. injection Hstep as <-.
      cbn. lia.
    + cbn [step] in Hstep.
      apply settle_write_state in Hstep as (_ & _ & ->). lia.
Qed.

(** X14. One load per lifetime. In every run from the mount the store
    answers the read at most once and the load resumes at most once,
    never before the answer; the load has finished exactly when it
    resumed. Once it has finished, a further answer or resumption cannot
    happen, and no toggle or write asks for the record again. *)
Theorem single_load_per_lifetime : forall scheme stored evs w,
  run scheme (mount scheme stored) evs = Some w ->
  (count is_read_answer evs <= 1)%nat /\
  (count is_load_resume evs <= count is_read_answer evs)%nat /\
  (count is_load_resume evs = 1%nat <-> stage w = load_finished) /\
  (stage w = load_finished ->
   forall ok, step scheme w LoadResumes = None /\
              step scheme w (StoreAnswersRead ok) = None).
Proof.
  intros scheme stored evs w Hrun.
  destruct (run_counts _ _ _ _ Hrun) as (H1 & H2).
  cbn [mount apply_effects fold_left loadThemePreference_start apply_effect
       stage answered resumed] in H1, H2.
  destruct (stage w) eqn:Hs; cbn [answered resumed] in H1, H2.
  - repeat split; try lia; try discriminate.
  - repeat split; try lia; try discriminate.
  - repeat split; try lia; try discriminate.
  - repeat split; try lia; cbn [step]; rewrite Hs; reflexivity.
Qed.

Lemma single_load_per_lifetime_witness :
  let evs := [ToggleTheme "2024-05-02T09:30:00.000Z"; StoreAnswersRead false;
              LoadResumes; WriteSettles 0 true] in
  exists w,
    run scheme_light (mount scheme_light (fun _ => None)) evs = Some w /\
    (count is_read_answer evs <= 1)%nat /\
    (count is_load_resume evs <= count is_read_answer evs)%nat /\
    (count is_load_resume evs = 1%nat <-> stage w = load_finished) /\
    (stage w = load_finished ->
     forall ok, step scheme_light w LoadResumes = None /\
                step scheme_light w (StoreAnswersRead ok) = None).
Proof.
  intros evs. eexists. split; [reflexivity|].
  exact (single_load_per_lifetime scheme_light (fun _ => None) evs _ eq_refl).
Defined.

End ResolverCounting.


(** ** The shipped themes meet the AA threshold

    [Math.pow] is only approximated by the platform, so the luminance of
    a colour is known up to the last bit of each channel's power. The
    checks below enumerate, for the colours at hand, every value a
    [Math.pow] that is off by less than one unit in the last place can
    give, and evaluate the comparison with 4.5 on each of them. *)

Module AccessibilityFacts.

Import Colors Colors.ThemeUtils HexFacts.

(** The doubles a faithful [Math.pow(x, 2.4)] can return. *)
Definition pow_candidates (x : float) : option (list float) :=
  match MathPow.power_floor x with
  | Some y =>
      Some (if MathPow.is_exact_power y x then [y] else [y; next_up y])
  | None => None
  end.

(** The values [linearize] can take, following its two branches. *)
Definition linearize_candidates (c : float) : option (list float) :=
  let c := (c / 255)%float in
  if (c <=? 0.03928)%float then Some [(c / 12.92)%float]
  else pow_candidates ((c + 0.055) / 1.055)%float.

(** The values [getLuminance] can take. *)
Definition luminance_candidates (hex : string) : option (list float) :=
  let rgb := JS.parseInt16 (JS.slice 1 hex) in
  let r := JS.band (JS.Int (JS.sar rgb 16)) (JS.Int 255) in
  let g := JS.band (JS.Int (JS.sar rgb 8)) (JS.Int 255) in
  let b := JS.band (JS.Int (JS.sar rgb 0)) (JS.Int 255) in
  match linearize_candidates (JS.float_of_Z r),
        linearize_candidates (JS.float_of_Z g),
        linearize_candidates (JS.float_of_Z b) with
  | Some rs, Some gs, Some bs =>
      Some (flat_map (fun rs =>
              flat_map (fun gs =>
                map (fun bs => (0.2126 * rs + 0.7152 * gs + 0.0722 * bs)%float)
                    bs) gs) rs)
  | _, _, _ => None
  end.

(** The last line of [getContrastRatio], on two luminances. *)
Definition ratio_of (lum1 lum2 : float) : float :=
  ((JS.Math_max lum1 lum2 + 0.05) / (JS.Math_min lum1 lum2 + 0.05))%float.

(** The comparison with 4.5 has the outcome [expected] on every pair of
    possible luminances. *)
Definition check_is (expected : bool) (foreground background : string) : bool :=
  match luminance_candidates foreground, luminance_candidates background with
  | Some l1, Some l2 =>
      forallb (fun a =>
        forallb (fun b => Bool.eqb (4.5 <=? ratio_of a b)%float expected) l2) l1
  | _, _ => false
  end.

Lemma power_floor_is_floor : forall x y,
  MathPow.power_floor x = Some y -> MathPow.is_floor_of_power y x = true.
Proof.
  intros x y H. unfold MathPow.power_floor in H.
  apply find_some in H. exact (proj2 H).
Qed.

Section WithMathPow.

Variable Math_pow : float -> float -> float.

Hypothesis pow_faithful : MathPow.faithful Math_pow.

Lemma pow_in_candidates : forall x l,
  pow_candidates x = Some l -> In (Math_pow x 2.4%float) l.
Proof.
  intros x l H. unfold pow_candidates in H.
  destruct (MathPow.power_floor x) as [y|] eqn:Hy; [|discriminate].
  injection H as <-.
  destruct (pow_faithful x y Hy) as [-> | (-> & ->)].
  - destruct (MathPow.is_exact_power y x); left; reflexivity.
  - right. left. reflexivity.
Qed.

Lemma linearize_in_candidates : forall c l,
  linearize_candidates c = Some l -> In (linearize Math_pow c) l.
Proof.
  intros c l H. unfold linearize_candidates in H. unfold linearize.
  cbv zeta in H |- *.
  destruct (c / 255 <=? 0.03928)%float.
  - injection H as <-. left. reflexivity.
  - apply pow_in_candidates. exact H.
Qed.

Lemma luminance_in_candidates : forall hex l,
  luminance_candidates hex = Some l -> In (getLuminance Math_pow hex) l.
Proof.
  intros hex l H. unfold luminance_candidates in H. unfold getLuminance.
  cbv zeta in H |- *.
  set (r := JS.float_of_Z (JS.band (JS.Int (JS.sar _ 16)) _)) in *.
  set (g := JS.float_of_Z (JS.band (JS.Int (JS.sar _ 8)) _)) in *.
  set (b := JS.float_of_Z (JS.band (JS.Int (JS.sar _ 0)) _)) in *.
  destruct (linearize_candidates r) as [rs|] eqn:Hr;
    destruct (linearize_candidates g) as [gs|] eqn:Hg;
    destruct (linearize_candidates b) as [bs|] eqn:Hb;
    cbv beta iota in H; try discriminate H.
  injection H as <-.
  apply in_flat_map. exists (linearize Math_pow r).
  split; [exact (linearize_in_candidates _ _ Hr)|].
  apply in_flat_map. exists (linearize Math_pow g).
  split; [exact (linearize_in_candidates _ _ Hg)|].
  apply in_map_iff. exists (linearize Math_pow b).
  split; [reflexivity|exact (linearize_in_candidates _ _ Hb)].
Qed.

Lemma check_is_sound : forall expected foreground background,
  check_is expected foreground background = true ->
  meetsAccessibilityStandards Math_pow foreground background = expected.
Proof.
  intros expected fg bg H. unfold check_is in H.
  destruct (luminance_candidates fg) as [l1|] eqn:H1; [|discriminate].
  destruct (luminance_candidates bg) as [l2|] eqn:H2; [|discriminate].
  rewrite forallb_forall in H.
  specialize (H _ (luminance_in_candidates _ _ H1)).
  rewrite forallb_forall in H.
  specialize (H _ (luminance_in_candidates _ _ H2)).
  apply Bool.eqb_prop in H. exact H.
Qed.


End WithMathPow.

(** The largest double not above the exact power, where the search finds
    it: a [Math.pow] that is faithful by construction. *)
Definition floor_pow (x y : float) : float :=
  match MathPow.power_floor x with
  | Some r => r
  | None => 0%float
  end.

Lemma floor_pow_faithful : MathPow.faithful floor_pow.
Proof.
  intros x y H. left. unfold floor_pow. rewrite H. reflexivity.
Qed.


End AccessibilityFacts.


(** ** How the colour utilities compose *)

Module CompositionFacts.

Import Colors Colors.ThemeUtils HexFacts.

(** *** Two adjustments in a row *)

Lemma clamp_in_range : forall v,
  0 <= v <= 255 -> clamp (JS.Int v) = JS.Int v.
Proof.
  intros v Hv.
  destruct (clamp_spec (JS.Int v)) as (z & Hz & _ & Hcases).
  rewrite Hz. f_equal.
  destruct (Hcases v eq_refl) as (C1 & C2 & C3). lia.
Qed.

(** X16. Two adjustments in a row add up as long as the first one clamps
    no channel: the result is the colour of the channels
    [clamp (x + (a + d))], where [a] and [d] are the two rounded
    amounts; taking back an adjustment ([d = -a]) returns the colour
    one started from, in lower case. Once a channel was clamped the way
    back is lost: [#FF0000] lightened by 20 and darkened by 20 is
    [#cc0000]. *)
Theorem adjustBrightness_composes : forall c p q a d r g b,
  valid_hex_color c = true ->
  channels c = (r, g, b) ->
  JS.Math_round (2.55 * p)%float = JS.Int a ->
  JS.Math_round (2.55 * q)%float = JS.Int d ->
  0 <= r + a <= 255 -> 0 <= g + a <= 255 -> 0 <= b + a <= 255 ->
  (exists r' g' b',
      clamp (JS.Int (r + (a + d))) = JS.Int r' /\
      clamp (JS.Int (g + (a + d))) = JS.Int g' /\
      clamp (JS.Int (b + (a + d))) = JS.Int b' /\
      adjustBrightness (adjustBrightness c p) q
      = String "#" (hex2 r' ++ hex2 g' ++ hex2 b')%string) /\
  (d = - a -> adjustBrightness (adjustBrightness c p) q = JS.toLowerCase c) /\
  adjustBrightness (adjustBrightness "#FF0000" 20) (-20) = "#cc0000"%string.
Proof.
  intros c p q a d r g b Hvalid Hch Ha Hd Hr Hg Hb.
  destruct (adjustBrightness_unfolded c p Hvalid)
    as (r0 & g0 & b0 & r1 & g1 & b1 & Hch0 & (Br & Bg & Bb) & Hlow
        & Cr & Cg & Cb & Hout).
  rewrite Hch in Hch0. injection Hch0 as <- <- <-.
  rewrite Ha in Cr, Cg, Cb. cbn [JS.add] in Cr, Cg, Cb.
  rewrite clamp_in_range in Cr, Cg, Cb by assumption.
  injection Cr as <-. injection Cg as <-. injection Cb as <-.
  destruct (rgb_text_channels (r + a) (g + a) (b + a) Hr Hg Hb)
    as (Hvalid1 & Hch1).
  cbv zeta in Hvalid1, Hch1. rewrite <- Hout in Hvalid1, Hch1.
  destruct (adjustBrightness_unfolded (adjustBrightness c p) q Hvalid1)
    as (r2 & g2 & b2 & r3 & g3 & b3 & Hch2 & _ & _ & Cr & Cg & Cb & Hout2).
  rewrite Hch1 in Hch2. injection Hch2 as <- <- <-.
  rewrite Hd in Cr, Cg, Cb. cbn [JS.add] in Cr, Cg, Cb.
  rewrite <- !Z.add_assoc in Cr, Cg, Cb.
  split; [|split; [|reflexivity]].
  - exists r3, g3, b3. auto.
  - intros ->. rewrite Z.add_opp_diag_r, !Z.add_0_r in Cr, Cg, Cb.
    rewrite clamp_in_range in Cr, Cg, Cb by assumption.
    injection Cr as <-. injection Cg as <-. injection Cb as <-.
    rewrite Hout2, Hlow. reflexivity.
Qed.

Lemma adjustBrightness_composes_witness :
  (exists r' g' b',
      clamp (JS.Int (63 + (51 + -51))) = JS.Int r' /\
      clamp (JS.Int (81 + (51 + -51))) = JS.Int g' /\
      clamp (JS.Int (181 + (51 + -51))) = JS.Int b' /\
      adjustBrightness (adjustBrightness "#3F51B5" 20) (-20)
      = String "#" (hex2 r' ++ hex2 g' ++ hex2 b')%string) /\
  (-51 = - 51 ->
   adjustBrightness (adjustBrightness "#3F51B5" 20) (-20)
   = JS.toLowerCase "#3F51B5") /\
  adjustBrightness (adjustBrightness "#FF0000" 20) (-20) = "#cc0000"%string.
Proof.
  apply (adjustBrightness_composes "#3F51B5" 20 (-20) 51 (-51) 63 81 181);
    try reflexivity; lia.
Defined.

(** *** A percentage that is not a finite number *)

(** X17. A percentage that is not a finite number is not reported: with
    [NaN] or [+Infinity] every text (a colour or not) becomes white,
    because [X < 255] is false for a [NaN], and with [-Infinity] it
    becomes black. *)
Theorem adjustBrightness_not_finite : forall hex percent,
  (JS.Math_round (2.55 * percent)%float = JS.NaN ->
   adjustBrightness hex percent = "#ffffff"%string) /\
  (JS.Math_round (2.55 * percent)%float = JS.Inf false ->
   adjustBrightness hex percent = "#ffffff"%string) /\
  (JS.Math_round (2.55 * percent)%float = JS.Inf true ->
   adjustBrightness hex percent = "#000000"%string) /\
  adjustBrightness hex nan = "#ffffff"%string /\
  adjustBrightness hex infinity = "#ffffff"%string /\
  adjustBrightness hex neg_infinity = "#000000"%string.
Proof.
  intros hex percent.
  assert (H : forall x,
            (JS.Math_round (2.55 * x)%float = JS.NaN ->
             adjustBrightness hex x = "#ffffff"%string) /\
            (JS.Math_round (2.55 * x)%float = JS.Inf false ->
             adjustBrightness hex x = "#ffffff"%string) /\
            (JS.Math_round (2.55 * x)%float = JS.Inf true ->
             adjustBrightness hex x = "#000000"%string)).
  { intros x. unfold adjustBrightness.
    repeat split; intros ->; reflexivity. }
  destruct (H percent) as (H1 & H2 & H3).
  split; [exact H1|]. split; [exact H2|]. split; [exact H3|].
  split; [|split].
  - exact (proj1 (H nan) eq_refl).
  - exact (proj1 (proj2 (H infinity)) eq_refl).
  - exact (proj2 (proj2 (H neg_infinity)) eq_refl).
Qed.

(** *** A colour with alpha, read back *)

Lemma upper_hex2_digits : forall n,
  0 <= n <= 255 ->
  exists d1 d2,
    JS.toUpperCase (hex2 n) = String d1 (String d2 "") /\
    JS.hex_digit_value d1 = Some (n / 16) /\
    JS.hex_digit_value d2 = Some (n mod 16).
Proof.
  intros n Hn.
  pose (P := fun n =>
     match JS.toUpperCase (hex2 n) with
     | String d1 (String d2 EmptyString) =>
         match JS.hex_digit_value d1, JS.hex_digit_value d2 with
         | Some v1, Some v2 => (v1 =? n / 16) && (v2 =? n mod 16)
         | _, _ => false
         end
     | _ => false
     end).
  assert (H : P n = true)
    by (apply ColorFacts.forall_bytes; [vm_compute; reflexivity|exact Hn]).
  unfold P in H.
  destruct (JS.toUpperCase (hex2 n)) as [|d1 [|d2 [|? ?]]]; try discriminate H.
  destruct (JS.hex_digit_value d1) as [v1|] eqn:E1; [|discriminate H].
  destruct (JS.hex_digit_value d2) as [v2|] eqn:E2; [|discriminate H].
  apply andb_true_iff in H as (H1 & H2).
  apply Z.eqb_eq in H1, H2. subst v1 v2. exists d1, d2.
  split; [reflexivity|]. split; assumption.
Qed.

(** The channels of a number of four bytes: the top byte is out of the
    reach of every mask. *)
Lemma channels_of_wide_number : forall r g b n,
  0 <= r <= 255 -> 0 <= g <= 255 -> 0 <= b <= 255 -> 0 <= n <= 255 ->
  let num := JS.Int (16777216 * r + 65536 * g + 256 * b + n) in
  JS.band (JS.Int (JS.sar num 16)) (JS.Int 255) = g /\
  JS.band (JS.Int (JS.sar num 8)) (JS.Int 255) = b /\
  JS.band (JS.Int (JS.sar num 0)) (JS.Int 255) = n /\
  JS.band num (JS.Int 255) = n.
Proof.
  intros r g b n Hr Hg Hb Hn num.
  set (z := 16777216 * r + 65536 * g + 256 * b + n).
  set (k := if r <? 128 then 0 else 1).
  assert (Hk : 0 <= k <= 1) by (unfold k; destruct (r <? 128); lia).
  assert (Hrange : -2147483648 <= z - 4294967296 * k < 2147483648)
    by (unfold z, k; destruct (Z.ltb_spec r 128); lia).
  assert (Hz : JS.ToInt32 (JS.Int z) = z - 4294967296 * k).
  { unfold JS.ToInt32.
    assert (E : (z + 2147483648) mod 4294967296
                = z + 2147483648 - 4294967296 * k).
    { symmetry. apply (Z.mod_unique _ _ k); unfold z, k.
      - destruct (Z.ltb_spec r 128); lia.
      - destruct (Z.ltb_spec r 128); lia. }
    rewrite E. lia. }
  assert (Hint : forall v, -2147483648 <= v < 2147483648 ->
                           JS.ToInt32 (JS.Int v) = v).
  { intros v Hv. unfold JS.ToInt32.
    rewrite Z.mod_small by lia. lia. }
  assert (Hmask : forall v, Z.land v 255 = v mod 256).
  { intros v. change 255 with (Z.ones 8). rewrite Z.land_ones by lia.
    reflexivity. }
  unfold JS.sar, JS.band, num. fold z. rewrite Hz.
  change (16 mod 32) with 16. change (8 mod 32) with 8. change (0 mod 32) with 0.
  rewrite !Z.shiftr_div_pow2 by lia.
  change (2 ^ 16) with 65536. change (2 ^ 8) with 256. change (2 ^ 0) with 1.
  rewrite Z.div_1_r.
  assert (E16 : (z - 4294967296 * k) / 65536 = 256 * r + g - 65536 * k)
    by (symmetry; apply (Z.div_unique _ _ _ (256 * b + n)); unfold z; lia).
  assert (E8 : (z - 4294967296 * k) / 256
               = 65536 * r + 256 * g + b - 16777216 * k)
    by (symmetry; apply (Z.div_unique _ _ _ n); unfold z; lia).
  rewrite E16, E8.
  rewrite (Hint 255) by lia.
  rewrite !Hint by (unfold z in *; lia).
  rewrite !Hmask.
  repeat split.
  - symmetry. apply (Z.mod_unique _ _ (r - 256 * k)); lia.
  - symmetry. apply (Z.mod_unique _ _ (256 * r + g - 65536 * k)); lia.
  - symmetry.
    apply (Z.mod_unique _ _ (65536 * r + 256 * g + b - 16777216 * k));
      unfold z; lia.
  - symmetry.
    apply (Z.mod_unique _ _ (65536 * r + 256 * g + b - 16777216 * k));
      unfold z; lia.
Qed.

Lemma sar_0_band : forall x y,
  JS.band (JS.Int (JS.sar x 0)) y = JS.band x y.
Proof.
  intros x y. unfold JS.band, JS.sar.
  change (0 mod 32) with 0. rewrite Z.shiftr_0_r. f_equal.
  assert (Hrange : -2147483648 <= JS.ToInt32 x < 2147483648).
  { unfold JS.ToInt32. destruct x as [| |z]; try lia.
    pose proof (Z.mod_pos_bound (z + 2147483648) 4294967296). lia. }
  unfold JS.ToInt32 at 1. rewrite Z.mod_small by lia. lia.
Qed.

Lemma luminance_reads_channels : forall Math_pow hex r g b,
  channels hex = (r, g, b) ->
  getLuminance Math_pow hex
  = (0.2126 * linearize Math_pow (JS.float_of_Z r)
     + 0.7152 * linearize Math_pow (JS.float_of_Z g)
     + 0.0722 * linearize Math_pow (JS.float_of_Z b))%float.
Proof.
  intros Math_pow hex r g b H. unfold channels in H. unfold getLuminance.
  cbv zeta in H |- *. rewrite sar_0_band.
  pose proof (f_equal (fun t => fst (fst t)) H) as R1.
  pose proof (f_equal (fun t => snd (fst t)) H) as R2.
  pose proof (f_equal snd H) as R3.
  cbn [fst snd] in R1, R2, R3. rewrite R1, R2, R3. reflexivity.
Qed.



(** X19. The result of [addAlpha] is not a colour the other utilities
    read as meant. For a valid colour of channels [(r, g, b)] and an
    alpha in [0, 1] rounded to the byte [n], the eight digits are read
    as one number whose top byte no mask reaches: the channels read
    back are [(g, b, n)], and [getLuminance] gives the luminance of the
    colour made of the green, blue and alpha bytes. *)
Theorem alpha_colour_is_misread : forall c alpha r g b,
  valid_hex_color c = true ->
  channels c = (r, g, b) ->
  (0 <=? alpha)%float = true -> (alpha <=? 1)%float = true ->
  exists n,
    JS.Math_round (alpha * 255)%float = JS.Int n /\
    valid_hex_color (addAlpha c alpha) = false /\
    channels (addAlpha c alpha) = (g, b, n) /\
    forall Math_pow,
      getLuminance Math_pow (addAlpha c alpha)
      = getLuminance Math_pow (String "#" (hex2 g ++ hex2 b ++ hex2 n)%string).
Proof.
  intros c alpha r g b Hvalid Hch H0 H1.
  destruct (FloatFacts.round_alpha_255 alpha H0 H1) as (n & Hround & Hn).
  destruct (ColorFacts.alpha_hex_byte n Hn) as (Hhex & _).
  destruct (upper_hex2_digits n Hn) as (d1 & d2 & Hup & D1 & D2).
  destruct (valid_hex_color_inv c Hvalid)
    as (c1 & c2 & c3 & c4 & c5 & c6 & v1 & v2 & v3 & v4 & v5 & v6 & -> &
        E1 & E2 & E3 & E4 & E5 & E6).
  pose proof (hex_digit_facts _ _ E1) as (B1 & _).
  pose proof (hex_digit_facts _ _ E2) as (B2 & _).
  pose proof (hex_digit_facts _ _ E3) as (B3 & _).
  pose proof (hex_digit_facts _ _ E4) as (B4 & _).
  pose proof (hex_digit_facts _ _ E5) as (B5 & _).
  pose proof (hex_digit_facts _ _ E6) as (B6 & _).
  destruct (byte_digits n Hn) as (N1 & N2 & N3).
  (* the channels of the colour itself *)
  unfold channels in Hch. rewrite slice_1_cons in Hch.
  rewrite (parseInt16_six_digits _ _ _ _ _ _ _ _ _ _ _ _ E1 E2 E3 E4 E5 E6) in Hch.
  destruct (channels_of_number (16 * v1 + v2) (16 * v3 + v4) (16 * v5 + v6))
    as (_ & K16 & K8 & _ & K0); try lia.
  cbv zeta in K16, K8, K0. rewrite K16, K8, K0 in Hch.
  injection Hch as <- <- <-.
  (* the text with alpha, and the number read from it *)
  assert (Htext : addAlpha
            (String "#" (String c1 (String c2 (String c3 (String c4 (String c5
               (String c6 "")))))))
            alpha
          = String "#" (String c1 (String c2 (String c3 (String c4 (String c5
              (String c6 (String d1 (String d2 ""))))))))).
  { unfold addAlpha. rewrite Hround, Hhex, Hup. reflexivity. }
  assert (Hparse : JS.parseInt16
            (String c1 (String c2 (String c3 (String c4 (String c5
               (String c6 (String d1 (String d2 ""))))))))
          = JS.Int (16777216 * (16 * v1 + v2) + 65536 * (16 * v3 + v4)
                    + 256 * (16 * v5 + v6) + n)).
  { rewrite (parseInt16_two_digits _ _ _ _ _ E1 E2).
    cbn [JS.hex_prefix]. rewrite E3, E4, E5, E6, D1, D2. f_equal. lia. }
  destruct (channels_of_wide_number (16 * v1 + v2) (16 * v3 + v4)
              (16 * v5 + v6) n) as (W16 & W8 & W0 & W0'); try lia.
  cbv zeta in W16, W8, W0, W0'.
  assert (Hread : channels
            (String "#" (String c1 (String c2 (String c3 (String c4 (String c5
               (String c6 (String d1 (String d2 "")))))))))
          = (16 * v3 + v4, 16 * v5 + v6, n)).
  { unfold channels. rewrite slice_1_cons, Hparse, W16, W8, W0'. reflexivity. }
  destruct (rgb_text_channels (16 * v3 + v4) (16 * v5 + v6) n)
    as (_ & Hback); try lia.
  cbv zeta in Hback.
  exists n. split; [exact Hround|]. rewrite Htext.
  split; [reflexivity|]. split; [exact Hread|].
  intros Math_pow.
  exact (eq_trans (luminance_reads_channels Math_pow _ _ _ _ Hread)
           (eq_sym (luminance_reads_channels Math_pow _ _ _ _ Hback))).
Qed.

Lemma alpha_colour_is_misread_witness :
  exists n,
    JS.Math_round (0.5 * 255)%float = JS.Int n /\
    valid_hex_color (addAlpha "#FF0000" 0.5) = false /\
    channels (addAlpha "#FF0000" 0.5) = (0, 0, n) /\
    forall Math_pow,
      getLuminance Math_pow (addAlpha "#FF0000" 0.5)
      = getLuminance Math_pow (String "#" (hex2 0 ++ hex2 0 ++ hex2 n)%string).
Proof.
  exact (alpha_colour_is_misread "#FF0000" 0.5 255 0 0
           eq_refl eq_refl eq_refl eq_refl).
Defined.

(** *** An alpha out of range *)

Lemma hex_digits_fuel_length : forall fuel n tail,
  (String.length tail <= String.length (JS.hex_digits_fuel fuel n tail))%nat.
Proof.
  induction fuel as [|fuel IH]; intros n tail; cbn [JS.hex_digits_fuel].
  - lia.
  - cbv zeta. destruct (n <? 16).
    + cbn [String.length]. lia.
    + etransitivity; [|apply IH]. cbn [String.length]. lia.
Qed.

Lemma hex_digits_wide : forall n,
  256 <= n -> (3 <= String.length (JS.hex_digits n))%nat.
Proof.
  intros n Hn. unfold JS.hex_digits.
  assert (Hlog : 8 <= Z.log2 n) by (apply Z.log2_le_pow2; lia).
  destruct (Z.to_nat (Z.log2 n)) as [|[|fuel]] eqn:Hf; try lia.
  cbn [JS.hex_digits_fuel]. cbv zeta.
  destruct (Z.ltb_spec n 16); [lia|].
  destruct (Z.ltb_spec (n / 16) 16) as [Hlt|_].
  { exfalso.
    assert (16 <= n / 16) by (apply Z.div_le_lower_bound; lia). lia. }
  destruct (n / 16 / 16 <? 16).
  - cbn [String.length]. lia.
  - etransitivity; [|apply hex_digits_fuel_length]. cbn [String.length]. lia.
Qed.

Lemma length_map_string : forall f s,
  String.length (JS.map_string f s) = String.length s.
Proof.
  intros f s. induction s as [|c s IH]; cbn [JS.map_string String.length].
  - reflexivity.
  - rewrite IH. reflexivity.
Qed.

Lemma length_string_app : forall s t,
  String.length (s ++ t)%string = (String.length s + String.length t)%nat.
Proof.
  intros s t. induction s as [|c s IH]; cbn [append String.length].
  - reflexivity.
  - rewrite IH. reflexivity.
Qed.

(** X20. [addAlpha] neither clamps nor checks its alpha. Above the range
    the suffix has three digits or more (alpha 2 gives [1FE]); below it
    the suffix starts with a minus sign (alpha -1 gives [-FF]); a [NaN]
    gives the suffix [NAN]. In each case the result is not an
    eight-digit colour. *)
Theorem addAlpha_out_of_range : forall c alpha,
  (forall n, JS.Math_round (alpha * 255)%float = JS.Int n -> 256 <= n ->
             (String.length c + 3 <= String.length (addAlpha c alpha))%nat) /\
  (forall n, JS.Math_round (alpha * 255)%float = JS.Int n -> n < 0 ->
             exists s, addAlpha c alpha = (c ++ String "-" s)%string) /\
  (JS.Math_round (alpha * 255)%float = JS.NaN ->
   addAlpha c alpha = (c ++ "NAN")%string) /\
  addAlpha c 2 = (c ++ "1FE")%string /\
  addAlpha c (-1) = (c ++ "-FF")%string /\
  addAlpha c nan = (c ++ "NAN")%string.
Proof.
  intros c alpha. split; [|split; [|split; [|repeat split; reflexivity]]].
  - intros n Hround Hn. unfold addAlpha. rewrite Hround.
    rewrite length_string_app. unfold JS.toUpperCase.
    rewrite length_map_string. unfold JS.padStart.
    rewrite length_string_app. unfold JS.toString16.
    destruct (Z.ltb_spec n 0); [lia|].
    pose proof (hex_digits_wide n Hn). lia.
  - intros n Hround Hn. unfold addAlpha. rewrite Hround.
    unfold JS.toString16. destruct (Z.ltb_spec n 0); [|lia].
    unfold JS.padStart. cbn [String.length].
    assert (Hlen : (1 <= String.length (JS.hex_digits (- n)))%nat).
    { unfold JS.hex_digits. cbn [JS.hex_digits_fuel]. cbv zeta.
      destruct (- n <? 16).
      - cbn [String.length]. lia.
      - etransitivity; [|apply hex_digits_fuel_length]. cbn [String.length]. lia. }
    replace (2 - S (String.length (JS.hex_digits (- n))))%nat with 0%nat by lia.
    cbn [JS.repeat_char append]. unfold JS.toUpperCase.
    cbn [JS.map_string].
    eexists. reflexivity.
  - intros Hround. unfold addAlpha. rewrite Hround. reflexivity.
Qed.

End CompositionFacts.


(** ** A colour against itself *)

Module SelfContrast.

Import Colors Colors.ThemeUtils HexFacts FloatFacts.

Section WithMathPow.

Variable Math_pow : float -> float -> float.

Hypothesis pow_unit_range : forall b,
  (0 <=? b)%float = true -> (b <=? 1)%float = true ->
  (0 <=? Math_pow b 2.4)%float = true /\ (Math_pow b 2.4 <=? 1)%float = true.

(** X21. No valid colour meets the AA threshold against itself, so a
    theme in which one of the five checked pairs is twice the same
    colour (text on a background or surface of its own colour; a
    primary, accent or secondary text of the background's colour) never
    passes [validateThemeAccessibility]. *)
Theorem theme_with_invisible_pair_fails : forall c,
  valid_hex_color c = true ->
  meetsAccessibilityStandards Math_pow c c = false /\
  forall theme,
    (text (colors theme) = c /\
     (background (colors theme) = c \/ surface (colors theme) = c)) \/
    (background (colors theme) = c /\
     (primary (colors theme) = c \/ accent (colors theme) = c \/
      textSecondary (colors theme) = c)) ->
    allValid (validateThemeAccessibility Math_pow theme) = false.
Proof.
  intros c Hvalid.
  assert (Hself : meetsAccessibilityStandards Math_pow c c = false).
  { destruct (ColorFacts.luminance_finite Math_pow pow_unit_range c Hvalid)
      as (HL & m & e & Hx).
    unfold meetsAccessibilityStandards, getContrastRatio.
    destruct (Math_max_min_same _ _ HL) as (-> & ->).
    rewrite (div_self _ _ _ _ Hx). reflexivity. }
  split; [exact Hself|].
  intros theme Hpair.
  unfold validateThemeAccessibility. cbn [allValid forallb].
  destruct Hpair as [(-> & [-> | ->]) | (-> & [-> | [-> | ->]])];
    rewrite Hself;
    repeat match goal with
           | |- context [meetsAccessibilityStandards ?m ?a ?b] =>
               destruct (meetsAccessibilityStandards m a b)
           end; reflexivity.
Qed.

End WithMathPow.

Lemma theme_with_invisible_pair_fails_witness :
  meetsAccessibilityStandards (fun b _ => b) "#F3F7FA" "#F3F7FA" = false /\
  forall theme,
    (text (colors theme) = "#F3F7FA"%string /\
     (background (colors theme) = "#F3F7FA"%string \/
      surface (colors theme) = "#F3F7FA"%string)) \/
    (background (colors theme) = "#F3F7FA"%string /\
     (primary (colors theme) = "#F3F7FA"%string \/
      accent (colors theme) = "#F3F7FA"%string \/
      textSecondary (colors theme) = "#F3F7FA"%string)) ->
    allValid (validateThemeAccessibility (fun b _ => b) theme) = false.
Proof.
  apply (theme_with_invisible_pair_fails (fun b _ => b)).
  - intros b H0 H1. split; assumption.
  - reflexivity.
Defined.

End SelfContrast.
